(** * StrucGrouper: the k-NN graph construction of [foldseek_umap.py]

    A shallow embedding of [main] of [src/foldseek_umap.py], from the
    loaded and coerced data frame (after line 54) to the files written,
    and the properties of the neighbour graph it hands to UMAP.

    Modelling conventions.
    - A float is an exact rational, one of the two infinities, or NaN
      (a missing cell); rounding to float64 or float32 and the int32 width
      of the index array are not modelled.
    - A Python [str] is a [string] of bytes, ordered lexicographically
      byte by byte, which on UTF-8 text is the order of code points that
      Python's [sorted] and pandas use.
    - A data frame is its number of columns together with its rows, in file
      order. The two identifiers of a row are strings: a row whose query or
      target cell is empty, which pandas loads as NaN, is not represented.
    - An uncaught exception ends the run; [umap.UMAP(...).fit_transform]
      is a collaborator passed to [main], and what [main] does to the world
      is the list of events it leaves. *)

From Stdlib Require Import QArith Qminmax Lqa OrderedTypeEx.
From stdpp Require Import gmap strings list sorting pretty.

Open Scope string_scope.
Open Scope list_scope.
Open Scope stdpp_scope.

(** ** Floats *)

Inductive float := NaN | NInf | Fin (q : Q) | PInf.

Definition isna (x : float) : bool :=
  match x with NaN => true | _ => false end.

(** [x <= y]; false as soon as one side is NaN. *)
Definition fleb (x y : float) : bool :=
  match x, y with
  | NaN, _ | _, NaN => false
  | NInf, _ | _, PInf => true
  | Fin a, Fin b => Qle_bool a b
  | _, _ => false
  end.

(** [x < y]. *)
Definition fltb (x y : float) : bool :=
  match x, y with
  | NaN, _ | _, NaN => false
  | PInf, _ | _, NInf => false
  | Fin a, Fin b => negb (Qle_bool b a)
  | _, _ => true
  end.

(** [x == y]. *)
Definition feqb (x y : float) : bool := fleb x y && fleb y x.

(** [x / 100.0] *)
Definition fdiv100 (x : float) : float :=
  match x with Fin q => Fin (q / 100) | _ => x end.

(** [1.0 - x] *)
Definition one_minus (x : float) : float :=
  match x with
  | NaN => NaN
  | NInf => PInf
  | Fin q => Fin (1 - q)
  | PInf => NInf
  end.

(** [np.clip(x, lo, hi)], that is [minimum(maximum(x, lo), hi)]. *)
Definition np_clip (x : float) (lo hi : Q) : float :=
  match x with
  | NaN => NaN
  | NInf => Fin (Qmin lo hi)
  | Fin q => Fin (Qmin (Qmax q lo) hi)
  | PInf => Fin hi
  end.

(** [ev.where((ev >= 0.0) & (ev <= 1.0))]: keep the value where the
    condition holds, NaN elsewhere. *)
Definition where_unit (ev : float) : float :=
  if fleb (Fin 0) ev && fleb ev (Fin 1) then ev else NaN.

(** The maximum of two cells that skips NaN, as [max(axis=1)] does. *)
Definition nanmax (x y : float) : float :=
  match x, y with
  | NaN, _ => y
  | _, NaN => x
  | _, _ => if fleb x y then y else x
  end.

(** ** Exceptions and results *)

Inductive exn :=
  | AssertionError
  | ValueError
  | IndexError
  | KeyError
  | EmbeddingError.

Inductive result (A : Type) :=
  | Ok (a : A)
  | Raise (e : exn).
Arguments Ok {A} a.
Arguments Raise {A} e.

Definition bind {A B} (r : result A) (k : A -> result B) : result B :=
  match r with Ok a => k a | Raise e => Raise e end.

Notation "x <-- r ;; k" := (bind r (fun x => k))
  (at level 100, r at next level, right associativity).

Definition of_option {A} (e : exn) (o : option A) : result A :=
  match o with Some a => Ok a | None => Raise e end.

(** A loop whose body may raise. *)
Fixpoint for_each {S X} (body : S -> X -> result S) (xs : list X) (s : S)
  : result S :=
  match xs with
  | [] => Ok s
  | x :: xs' => s' <-- body s x ;; for_each body xs' s'
  end.

(** ** Stable sorting

    [sorted] of Python and the multi-key [sort_values] of pandas are both
    stable: elements that compare equal keep their relative order. *)

Section StableSort.
Context {A : Type} (le : A -> A -> bool).

Fixpoint insert_sorted (x : A) (l : list A) : list A :=
  match l with
  | [] => [x]
  | y :: l' => if le x y then x :: y :: l' else y :: insert_sorted x l'
  end.

Definition stable_sort (l : list A) : list A := foldr insert_sorted [] l.
End StableSort.

(** ** The data frame after loading (lines 41-54) *)

Record row := Row {
  query : string;
  target : string;
  alnlen : float;
  qcov : float;
  tcov : float;
  evalue : float;
  score : float;
  alntmscore : float
}.

(** [ncols] is [df.shape[1]]; a cell of a column the frame does not have is
    never read. *)
Record frame := Frame {
  ncols : nat;
  rows : list row
}.

Definition base_cols_pref : list string :=
  ["query"; "target"; "alnlen"; "qcov"; "tcov"; "evalue"; "score"; "alntmscore"].
Definition base_cols_fbk : list string :=
  ["query"; "target"; "alnlen"; "qcov"; "tcov"; "evalue"; "score"].

(** [df.columns] as lines 46-49 assign it. *)
Definition columns (df : frame) : list string :=
  if decide (length base_cols_pref <= ncols df)%nat
  then base_cols_pref ++
       ((fun i : nat => "extra_" +:+ pretty i) <$>
          seq 0 (ncols df - length base_cols_pref))
  else take (ncols df) base_cols_fbk.

Definition has_column (c : string) (df : frame) : bool :=
  bool_decide (c ∈ columns df).

(** ** Similarity (lines 56-74) *)

(** [pd.concat(candidates, axis=1).max(axis=1)]: [pd.concat] refuses an
    empty list; the row-wise maximum skips NaN. *)
Definition concat_max (candidates : list (list float)) : result (list float) :=
  match candidates with
  | [] => Raise ValueError
  | c :: cs => Ok (foldl (zip_with nanmax) c cs)
  end.

Definition similarity (df : frame) : result (list float) :=
  if has_column "alntmscore" df then Ok (alntmscore <$> rows df)
  else
    concat_max
      ((if has_column "score" df
        then [(fun r => fdiv100 (score r)) <$> rows df] else []) ++
       (if has_column "evalue" df
        then [(fun r => where_unit (evalue r)) <$> rows df] else [])).

(** A row of the frame once the column [tm] is attached. *)
Record edge := Edge {
  erow : row;
  tm : float
}.

Definition equery (e : edge) : string := query (erow e).
Definition etarget (e : edge) : string := target (erow e).

(** [df["tm"] = tm; df = df.dropna(subset=["tm"])] *)
Definition dropna (es : list edge) : list edge :=
  filter (fun e => isna (tm e) = false) es.

Definition resolved (df : frame) : result (list edge) :=
  tms <-- similarity df ;;
  Ok (dropna (zip_with Edge (rows df) tms)).

(** ** Node index (lines 76-79) *)

(** [sorted(...)] on strings. *)
Definition sorted (l : list string) : list string :=
  stable_sort String.leb l.

(** [sorted(set(df["query"]) | set(df["target"]))] *)
Definition all_ids_of (es : list edge) : list string :=
  sorted (elements
    ((list_to_set (equery <$> es) : gset string) ∪ list_to_set (etarget <$> es))).

Definition enumerate {A} (l : list A) : list (nat * A) :=
  zip (seq 0 (length l)) l.

(** [{sid: i for i, sid in enumerate(all_ids)}] *)
Definition id2ix_of (all_ids : list string) : gmap string nat :=
  foldl (fun m p => <[p.2 := p.1]> m) ∅ (enumerate all_ids).

(** ** Edge filter and top-K (lines 81-88) *)

(** [df[df["query"] != df["target"]]] *)
Definition drop_self (es : list edge) : list edge :=
  filter (fun e => equery e ≠ etarget e) es.

(** [if min_tm > 0: df = df[df["tm"] >= min_tm]] *)
Definition threshold (min_tm : float) (es : list edge) : list edge :=
  if fltb (Fin 0) min_tm then filter (fun e => fleb min_tm (tm e) = true) es
  else es.

(** Descending on [tm], NaN last. *)
Definition tm_desc (a b : float) : bool :=
  if isna b then true else if isna a then false else fleb b a.

(** The order of [sort_values(["query", "tm"], ascending=[True, False])]. *)
Definition edge_le (a b : edge) : bool :=
  String.ltb (equery a) (equery b)
  || (String.eqb (equery a) (equery b) && tm_desc (tm a) (tm b)).

Definition sort_values (es : list edge) : list edge :=
  stable_sort edge_le es.

Definition in_group (q : string) (es : list edge) : list edge :=
  filter (fun e => equery e = q) es.

(** [groupby("query", sort=False).head(n)]: the rows keep their order; a row
    stays when its position in its group is below [n], or for a negative
    [n] below the size of the group plus [n]. *)
Fixpoint head_from (n : Z) (before : list edge) (l : list edge) : list edge :=
  match l with
  | [] => []
  | e :: after =>
      let pos := length (in_group (equery e) before) in
      let size := (pos + 1 + length (in_group (equery e) after))%nat in
      let stop := if (0 <=? n)%Z then n else (Z.of_nat size + n)%Z in
      (if (Z.of_nat pos <? stop)%Z then [e] else []) ++
      head_from n (before ++ [e]) after
  end.

Definition groupby_head (n : Z) (l : list edge) : list edge := head_from n [] l.

(** The keys of [groupby("query", sort=False)], in order of first
    appearance. *)
Definition group_keys (es : list edge) : list string :=
  reverse (remove_dups (reverse (equery <$> es))).

Definition groupby (es : list edge) : list (string * list edge) :=
  (fun q => (q, in_group q es)) <$> group_keys es.

(** ** Neighbour graph (lines 90-108) *)

Record knn := Knn {
  indices : list (list Z);
  dists : list (list float)
}.

(** [np.full((n, m), v)]; a negative dimension is refused. *)
Definition np_full {A} (n : nat) (m : Z) (v : A) : result (list (list A)) :=
  if (m <? 0)%Z then Raise ValueError
  else Ok (replicate n (replicate (Z.to_nat m) v)).

(** [a[i, j] = v] for [i] and [j] that are not negative. *)
Definition set_item {A} (a : list (list A)) (i j : nat) (v : A)
  : result (list (list A)) :=
  match a !! i with
  | None => Raise IndexError
  | Some r =>
      if decide (j < length r)%nat then Ok (<[i := <[j := v]> r]> a)
      else Raise IndexError
  end.

(** Where the bound [k] of a slice falls in a sequence of length [len]. *)
Definition slice_bound (len : nat) (k : Z) : nat :=
  if (k <? 0)%Z then Z.to_nat (Z.max 0 (Z.of_nat len + k))
  else Nat.min (Z.to_nat k) len.

(** [l[:n]] *)
Definition py_take {A} (n : Z) (l : list A) : list A :=
  take (slice_bound (length l) n) l.

(** [r[start:stop] = vals]: the lengths agree, or a single value is
    broadcast. *)
Definition set_slice {A} (r : list A) (start stop : Z) (vals : list A)
  : result (list A) :=
  let a := slice_bound (length r) start in
  let m := (slice_bound (length r) stop - a)%nat in
  if decide (length vals = m) then Ok (take a r ++ vals ++ drop (a + m) r)
  else match vals with
       | [v] => Ok (take a r ++ replicate m v ++ drop (a + m) r)
       | _ => Raise ValueError
       end.

(** [a[i, start:stop] = vals] *)
Definition set_row_slice {A} (a : list (list A)) (i : nat) (start stop : Z)
    (vals : list A) : result (list (list A)) :=
  match a !! i with
  | None => Raise IndexError
  | Some r => r' <-- set_slice r start stop vals ;; Ok (<[i := r']> a)
  end.

(** The body of the loop of lines 96-98. *)
Definition set_self (g : knn) (i : nat) : result knn :=
  ind <-- set_item (indices g) i 0 (Z.of_nat i) ;;
  ds <-- set_item (dists g) i 0 (Fin 0) ;;
  Ok (Knn ind ds).

(** [sub["target"].map(id2ix).to_numpy(dtype=np.int32)]: a target without an
    index maps to NaN, which no integer array takes. *)
Definition map_targets (id2ix : gmap string nat) (sub : list edge)
  : result (list Z) :=
  of_option ValueError
    (mapM (fun e => Z.of_nat <$> id2ix !! etarget e) sub).

(** [1.0 - np.clip(tm, 0.0, 1.0)], the expression of line 105, in exact
    arithmetic; the program evaluates it in float32. *)
Definition distance (t : float) : float := one_minus (np_clip t 0 1).

(** The body of the loop of lines 101-108. *)
Definition fill_row (id2ix : gmap string nat) (K : Z) (g : knn)
    (grp : string * list edge) : result knn :=
  let '(q, sub) := grp in
  i <-- of_option KeyError (id2ix !! q) ;;
  js <-- map_targets id2ix sub ;;
  let ds := (fun e => distance (tm e)) <$> sub in
  let n := Z.min K (Z.of_nat (length js)) in
  ind <-- set_row_slice (indices g) i 1 (1 + n) (py_take n js) ;;
  dst <-- set_row_slice (dists g) i 1 (1 + n) (py_take n ds) ;;
  Ok (Knn ind dst).

Definition build_knn (id2ix : gmap string nat) (N : nat) (K : Z)
    (es : list edge) : result knn :=
  ind <-- np_full N (K + 1) (-1)%Z ;;
  dst <-- np_full N (K + 1) PInf ;;
  g <-- for_each set_self (seq 0 N) (Knn ind dst) ;;
  for_each (fill_row id2ix K) (groupby es) g.

(** ** The run *)

Record args := Args {
  out_prefix : string;
  k : Z;
  umap_n_neighbors : Z;
  min_tm : float;
  seed : Z
}.

(** What [umap.UMAP(...).fit_transform(X_dummy)] is given: the arguments
    that vary, and the number of rows of [X_dummy]. *)
Record umap_call := UmapCall {
  n_neighbors : Z;
  random_state : Z;
  precomputed_knn : knn;
  n_samples : nat
}.

Inductive event :=
  | FitTransform (c : umap_call)
  | ToCsv (path sep : string) (header : list string)
          (body : list (string * float * float))
  | SaveFig (path : string)
  | Print (msg : string).

Record run := Run {
  events : list event;
  outcome : result unit
}.

Definition tab : string := String (Ascii.ascii_of_nat 9) "".

(** Lines 81-88: the edges that reach the graph. *)
Definition filtered (a : args) (es : list edge) : list edge :=
  threshold (min_tm a) (drop_self es).

Definition surviving (a : args) (es : list edge) : list edge :=
  groupby_head (k a) (sort_values (filtered a es)).

(** Line 34 and lines 56-108: from the loaded frame to the graph handed to
    the embedding. Loading the file (lines 41-54) comes before it and is not
    part of it. *)
Definition prepare (a : args) (df : frame) : result (list string * knn) :=
  let K := k a in
  if decide (umap_n_neighbors a <= K + 1)%Z then
    es <-- resolved df ;;
    let all_ids := all_ids_of es in
    let id2ix := id2ix_of all_ids in
    let N := length all_ids in
    g <-- build_knn id2ix N K (surviving a es) ;;
    Ok (all_ids, g)
  else Raise AssertionError.

Definition main (fit_transform : umap_call -> result (list (float * float)))
    (a : args) (df : frame) : run :=
  match prepare a df with
  | Raise e => Run [] (Raise e)
  | Ok (all_ids, g) =>
      let umap_k := Z.min (umap_n_neighbors a) (k a + 1) in
      let call := UmapCall umap_k (seed a) g (length all_ids) in
      match fit_transform call with
      | Raise e => Run [FitTransform call] (Raise e)
      | Ok Y =>
          let coords_path := out_prefix a +:+ "_coords.tsv" in
          let fig_path := out_prefix a +:+ ".png" in
          if decide (length Y = length all_ids) then
            Run [FitTransform call;
                 ToCsv coords_path tab ["id"; "umap_x"; "umap_y"]
                   (zip_with (fun s y => (s, y.1, y.2)) all_ids Y);
                 SaveFig fig_path;
                 Print ("Wrote: " +:+ coords_path +:+ " and " +:+ fig_path)]
                (Ok ())
          else Run [FitTransform call] (Raise ValueError)
      end
  end.


(** ** The graph in the words of the specification *)

(** The order within one query. *)
Definition rank_le (a b : edge) : bool := tm_desc (tm a) (tm b).


(** The edges of query [q], strongest first, ties in input order. *)
Definition ranked (q : string) (es : list edge) : list edge :=
  stable_sort rank_le (in_group q es).

Definition top_k (K : nat) (q : string) (es : list edge) : list edge :=
  take K (ranked q es).

(** A row of the graph: the node itself, its neighbours, then sentinels up
    to [K] columns after the first. *)
Definition row_of {A} (K : nat) (self : A) (nbrs : list A) (sentinel : A)
  : list A :=
  self :: nbrs ++ replicate (K - length nbrs) sentinel.

Definition target_ix (id2ix : gmap string nat) (e : edge) : Z :=
  Z.of_nat (default 0%nat (id2ix !! etarget e)).

(** The graph whose row [i], for the identifier [q] at position [i], holds
    the edges [f q] after the self-loop. *)
Definition rows_are (ids : list string) (K : nat) (f : string -> list edge)
    (g : knn) : Prop :=
  length (indices g) = length ids /\
  length (dists g) = length ids /\
  forall i q, ids !! i = Some q ->
    indices g !! i
      = Some (row_of K (Z.of_nat i) (target_ix (id2ix_of ids) <$> f q) (-1)%Z) /\
    dists g !! i
      = Some (row_of K (Fin 0) ((fun e => distance (tm e)) <$> f q) PInf).

(** The similarity of one record as the specification words it: the
    alignment score when the record has one; otherwise the maximum of
    [score / 100], when the record has a score, and of [evalue], when it
    lies in [0,1]; NaN when nothing is left. *)
Definition spec_tm (r : row) : float :=
  if isna (alntmscore r)
  then nanmax (fdiv100 (score r)) (where_unit (evalue r))
  else alntmscore r.

(** The similarity of a record when the input has no alignment-score
    column. *)
Definition fallback_tm (df : frame) (r : row) : float :=
  if has_column "score" df
  then nanmax (fdiv100 (score r)) (where_unit (evalue r))
  else where_unit (evalue r).

(** The similarity of one record, given the columns of its frame: lines
    58-71 read a row at a time. *)
Definition row_tm (df : frame) (r : row) : float :=
  if has_column "alntmscore" df then alntmscore r else fallback_tm df r.

(** Two records that agree on the cells the run reads: the identifiers, and
    of the numbers the alignment score when the frame has that column, the
    evalue and (when the frame has it) the score otherwise. *)
Definition same_used (df : frame) (r r' : row) : Prop :=
  query r = query r' /\ target r = target r' /\
  if has_column "alntmscore" df then alntmscore r = alntmscore r'
  else evalue r = evalue r' /\
       (has_column "score" df = true -> score r = score r').

(** What the graph can see of an edge. *)
Definition edge_key (e : edge) : string * string * float :=
  (equery e, etarget e, tm e).

(** The record as the frame shows it: the cell of a column that the frame
    lacks is absent. *)
Definition visible (df : frame) (r : row) : row :=
  Row (query r) (target r) (alnlen r) (qcov r) (tcov r)
      (if has_column "evalue" df then evalue r else NaN)
      (if has_column "score" df then score r else NaN)
      (if has_column "alntmscore" df then alntmscore r else NaN).

(** The node set as the specification words it: every identifier of every
    loaded record. *)
Definition spec_node_set (df : frame) : list string :=
  sorted (elements
    ((list_to_set (query <$> rows df) : gset string)
       ∪ list_to_set (target <$> rows df))).

(** The populated entries of the neighbour columns of a row of indices. *)
Definition populated (r : list Z) : list Z :=
  filter (fun j => j <> (-1)%Z) (tail r).

(** ** Examples *)

Definition mk_row (q t : string) (ev sc tmscore : float) : row :=
  Row q t NaN NaN NaN ev sc tmscore.

Definition default_args : args := Args "umap" 50 30 (Fin 0) 42.

(** The end-to-end example: edges A-B 0.9, A-C 0.4, B-A 0.9 and K = 2. *)
Definition abc_frame : frame :=
  Frame 8 [mk_row "A" "B" NaN NaN (Fin 0.9);
           mk_row "A" "C" NaN NaN (Fin 0.4);
           mk_row "B" "A" NaN NaN (Fin 0.9)].

Definition abc_args : args := Args "umap" 2 3 (Fin 0) 42.

Definition abc_ids : list string := ["A"; "B"; "C"].

Definition abc_graph : knn :=
  Knn [[0; 1; 2]; [1; 0; -1]; [2; -1; -1]]%Z
      [[Fin 0; Fin (1 - 0.9); Fin (1 - 0.4)];
       [Fin 0; Fin (1 - 0.9); PInf];
       [Fin 0; PInf; PInf]].


Definition abc_edges : list edge :=
  zip_with Edge (rows abc_frame) [Fin 0.9; Fin 0.4; Fin 0.9].

Definition abc_fit (c : umap_call) : result (list (float * float)) :=
  Ok [(Fin 1, Fin 2); (Fin 3, Fin 4); (Fin 5, Fin 6)].

(** The end-to-end example with a similarity floor of 0.5: the edge A-C
    falls below it. *)
Definition abc_floor_args : args := Args "umap" 2 3 (Fin 0.5) 42.

Definition abc_floor_graph : knn :=
  Knn [[0; 1; -1]; [1; 0; -1]; [2; -1; -1]]%Z
      [[Fin 0; Fin (1 - 0.9); PInf];
       [Fin 0; Fin (1 - 0.9); PInf];
       [Fin 0; PInf; PInf]].

(** The same with room for one neighbour only. *)
Definition abc_one_args : args := Args "umap" 1 2 (Fin 0) 42.

Definition abc_one_graph : knn :=
  Knn [[0; 1]; [1; 0]; [2; -1]]%Z
      [[Fin 0; Fin (1 - 0.9)]; [Fin 0; Fin (1 - 0.9)]; [Fin 0; PInf]].

(** The end-to-end example with the records of B before those of A. *)
Definition abc_frame_reordered : frame :=
  Frame 8 [mk_row "B" "A" NaN NaN (Fin 0.9);
           mk_row "A" "B" NaN NaN (Fin 0.9);
           mk_row "A" "C" NaN NaN (Fin 0.4)].

(** The end-to-end example with other numbers in the cells that are not
    read. *)
Definition abc_frame_noisy : frame :=
  Frame 8 [Row "A" "B" (Fin 120) (Fin 0.8) (Fin 0.7) (Fin 3) (Fin 55) (Fin 0.9);
           Row "A" "C" (Fin 90) NaN NaN (Fin 0.2) (Fin 10) (Fin 0.4);
           Row "B" "A" (Fin 120) (Fin 0.7) (Fin 0.8) NaN (Fin 700) (Fin 0.9)].

(** Two records, the second with an empty alignment score. *)
Definition mixed_frame : frame :=
  Frame 8 [mk_row "A" "B" NaN NaN (Fin 0.9);
           mk_row "A" "C" NaN (Fin 80) NaN].

(** The same second record in an input of seven columns. *)
Definition basic_frame : frame :=
  Frame 7 [mk_row "A" "C" NaN (Fin 80) NaN].

(** A record that resolves and one that does not. *)
Definition unresolved_frame : frame :=
  Frame 7 [mk_row "A" "B" NaN (Fin 80) NaN;
           mk_row "C" "D" NaN NaN NaN].

(** The same pair of identifiers twice. *)
Definition dup_frame : frame :=
  Frame 8 [mk_row "A" "B" NaN NaN (Fin 0.9);
           mk_row "A" "B" NaN NaN (Fin 0.8)].

Definition over_score_frame : frame :=
  Frame 7 [mk_row "A" "B" NaN (Fin 500) NaN].

Definition over_tm_frame : frame :=
  Frame 8 [mk_row "A" "B" NaN NaN (Fin 1.5)].

Definition evalue_frame : frame :=
  Frame 6 [mk_row "A" "B" (Fin 0.7) NaN NaN;
           mk_row "A" "C" (Fin 5) NaN NaN].

(** One record, with nothing to resolve a similarity from. *)
Definition unresolvable_frame : frame :=
  Frame 7 [mk_row "A" "B" (Fin 5) NaN NaN].

Definition umap_rejects (c : umap_call) : result (list (float * float)) :=
  Raise EmbeddingError.

Definition umap_returns_nothing (c : umap_call) : result (list (float * float)) :=
  Ok [].

(** ** What a run leaves behind *)

(** An event that leaves a file. *)
Definition writes_file (ev : event) : bool :=
  match ev with
  | ToCsv _ _ _ _ | SaveFig _ => true
  | FitTransform _ | Print _ => false
  end.

(** * [embed_reduce.py]: PCA and UMAP of embeddings stored in HDF5

    The file is what [h5py] shows of it: the members of the root group in
    the order of [f.keys()], each a dataset given by the number of
    dimensions of [np.array(f[key])] and, for one dimension, its elements.
    Opening the file, [Path.exists], [fit_pca_2d] and [fit_umap_2d] (calls
    into scikit-learn and umap-learn), [DataFrame.to_csv] and
    [scatter_and_save] (matplotlib) are collaborators of [main]: each
    answers with a value or raises, and calling one is an event of the run,
    recorded whether or not the call succeeds. A [Path] is the string it is
    made from; [print] does not fail. *)

Module EmbedReduce.

Record dataset := Dataset {
  ndim : nat;
  elements : list float
}.

Definition h5file : Type := list (string * dataset).

Inductive error :=
  | NotOneDimensional (key : string)   (* the ValueError of line 29 *)
  | CannotStack                        (* the ValueError of np.vstack *)
  | Mismatch                           (* the RuntimeError of line 97 *)
  | LengthsDiffer                      (* the ValueError of pd.DataFrame *)
  | Exit (code : Z)                    (* sys.exit *)
  | External (what : string).          (* raised by a collaborator *)

Inductive res (A : Type) :=
  | Done (a : A)
  | Fail (e : error).
Arguments Done {A} a.
Arguments Fail {A} e.

(** The loop of lines 26-33. *)
Fixpoint collect (members : h5file) (ids : list string)
    (vecs : list (list float)) : res (list string * list (list float)) :=
  match members with
  | [] => Done (ids, vecs)
  | (key, arr) :: rest =>
      if decide (ndim arr <> 1%nat) then Fail (NotOneDimensional key)
      else collect rest (ids ++ [key]) (vecs ++ [elements arr])
  end.

(** [np.vstack] of one-dimensional arrays: at least one, all of one
    length. *)
Definition np_vstack (vecs : list (list float)) : res (list (list float)) :=
  match vecs with
  | [] => Fail CannotStack
  | v :: vs =>
      if decide (Forall (fun w => length w = length v) vs) then Done (v :: vs)
      else Fail CannotStack
  end.

(** [load_h5_embeddings], on the file once opened. *)
Definition load_h5_embeddings (f : h5file)
  : res (list string * list (list float)) :=
  match collect f [] [] with
  | Fail e => Fail e
  | Done (ids, vecs) =>
      match np_vstack vecs with
      | Fail e => Fail e
      | Done X => Done (ids, X)
      end
  end.

Record args := Args {
  h5_file : string;
  outprefix : string;
  neighbors : Z;
  min_dist : float;
  whiten : bool
}.

Inductive event :=
  | PrintErr (msg : string)
  | Open (path : string)
  | FitPca (X : list (list float)) (whiten : bool)
  | FitUmap (X : list (list float)) (n_neighbors : Z) (min_dist : float)
  | ToCsv (path sep : string) (header : list string)
          (body : list (string * float * float))
  | SavePng (path title : string)
  | Print (msg : string).

Record run := Run {
  events : list event;
  outcome : res unit
}.

(** What a collaborator answers: a value, or an exception of its own. *)
Inductive answer (A : Type) :=
  | Returns (a : A)
  | Raises (what : string).
Arguments Returns {A} a.
Arguments Raises {A} what.

Definition call {A} (r : answer A) : res A :=
  match r with Returns a => Done a | Raises what => Fail (External what) end.

(** The collaborators. *)
Record world := World {
  exists_ : string -> bool;
  open_h5 : string -> answer h5file;
  fit_pca_2d : list (list float) -> bool -> answer (list (float * float));
  fit_umap_2d : list (list float) -> Z -> float -> answer (list (float * float));
  to_csv : string -> list (string * float * float) -> answer unit;
  scatter_and_save :
    list (float * float) -> list string -> string -> string -> answer unit
}.

(** [pd.DataFrame({"id": ids, "umap_x": xy[:, 0], "umap_y": xy[:, 1]})] *)
Definition frame_of (ids : list string) (xy : list (float * float))
  : res (list (string * float * float)) :=
  if decide (length xy = length ids)
  then Done (zip_with (fun s y => (s, y.1, y.2)) ids xy)
  else Fail LengthsDiffer.

(** Lines 86-93: the file as given, or with [.h5] appended. *)
Definition resolve_path (w : world) (a : args) : option string :=
  if exists_ w (h5_file a) then Some (h5_file a)
  else if exists_ w (h5_file a +:+ ".h5") then Some (h5_file a +:+ ".h5")
  else None.

(** One statement of [main]: an exception ends the run with the events so
    far, a value goes to the rest of [main]. *)
Definition attempt {A} (so_far : list event) (r : res A) (rest : A -> run)
  : run :=
  match r with
  | Fail e => Run so_far (Fail e)
  | Done x => rest x
  end.

Definition main (w : world) (a : args) : run :=
  match resolve_path w a with
  | None => Run [PrintErr ("File not found: " +:+ h5_file a)] (Fail (Exit 1))
  | Some h5_path =>
  let header := ["id"; "umap_x"; "umap_y"] in
  let ev := [Open h5_path] in
  attempt ev (call (open_h5 w h5_path)) (fun f =>
  attempt ev (load_h5_embeddings f) (fun '(ids, X) =>
  if decide (length ids <> length X) then Run ev (Fail Mismatch) else
  let ev := ev ++ [FitPca X (whiten a)] in
  attempt ev (call (fit_pca_2d w X (whiten a))) (fun pca_xy =>
  attempt ev (frame_of ids pca_xy) (fun pca_df =>
  let pca_tsv := outprefix a +:+ "_pca.tsv" in
  let ev := ev ++ [ToCsv pca_tsv tab header pca_df] in
  attempt ev (call (to_csv w pca_tsv pca_df)) (fun _ =>
  let ev := ev ++ [FitUmap X (neighbors a) (min_dist a)] in
  attempt ev (call (fit_umap_2d w X (neighbors a) (min_dist a))) (fun umap_xy =>
  attempt ev (frame_of ids umap_xy) (fun umap_df =>
  let umap_tsv := outprefix a +:+ "_umap.tsv" in
  let ev := ev ++ [ToCsv umap_tsv tab header umap_df] in
  attempt ev (call (to_csv w umap_tsv umap_df)) (fun _ =>
  let pca_png := outprefix a +:+ "_pca.png" in
  let ev := ev ++ [SavePng pca_png "PCA (2D) of embeddings"] in
  attempt ev
    (call (scatter_and_save w pca_xy ids "PCA (2D) of embeddings" pca_png))
    (fun _ =>
  let umap_png := outprefix a +:+ "_umap.png" in
  let ev := ev ++ [SavePng umap_png "UMAP (2D) of embeddings"] in
  attempt ev
    (call (scatter_and_save w umap_xy ids "UMAP (2D) of embeddings" umap_png))
    (fun _ =>
  Run (ev ++
       [Print ("Saved: " +:+ pca_tsv +:+ ", " +:+ umap_tsv);
        Print ("Saved: " +:+ outprefix a +:+ "_pca.png, " +:+ outprefix a
                 +:+ "_umap.png")])
      (Done ())))))))))))
  end.

(** The file an event writes to, if it writes. *)
Definition written_path (ev : event) : option string :=
  match ev with
  | ToCsv path _ _ _ | SavePng path _ => Some path
  | _ => None
  end.

(** The files a run has written to, in the order of the writes. *)
Definition written (r : run) : list string := omap written_path (events r).

End EmbedReduce.

(** Two embeddings of three numbers, and collaborators of which the UMAP fit
    raises. *)
Definition two_vectors : EmbedReduce.h5file :=
  [("P1", EmbedReduce.Dataset 1 [Fin 1; Fin 2; Fin 3]);
   ("P2", EmbedReduce.Dataset 1 [Fin 4; Fin 5; Fin 6])].

Definition umap_fails_world : EmbedReduce.world :=
  EmbedReduce.World
    (fun path => String.eqb path "embeds.h5")
    (fun path => EmbedReduce.Returns two_vectors)
    (fun X whiten => EmbedReduce.Returns [(Fin 0, Fin 1); (Fin 1, Fin 0)])
    (fun X n d => EmbedReduce.Raises "umap")
    (fun path body => EmbedReduce.Returns ())
    (fun xy ids title path => EmbedReduce.Returns ()).

Definition embeds_args : EmbedReduce.args :=
  EmbedReduce.Args "embeds" "embeds" 15 (Fin 0.1) false.

(** * [tools/expand_taxy.py]: the columns of an expanded lineage

    [expand_lineage] is modelled from line 33 on. [parse_lineage], which
    rests on the regular expressions and the Unicode classes of the Python
    runtime, is a parameter: it gives the taxa of a lineage in order, each a
    name and a sanitized type. A [dict] that is only looked up is a [gmap];
    the returned one, whose order of insertion shows in the output columns,
    is a list of items. *)

Module ExpandTaxy.

(** [d[col] = name] on a dict kept in insertion order. *)
Fixpoint dict_set (d : list (string * string)) (col name : string)
  : list (string * string) :=
  match d with
  | [] => [(col, name)]
  | (c, v) :: rest =>
      if decide (c = col) then (c, name) :: rest
      else (c, v) :: dict_set rest col name
  end.

(** Lines 33-35: [type_counts[t] = type_counts.get(t, 0) + 1]. *)
Definition count_types (parsed : list (string * string)) : gmap string nat :=
  foldl (fun counts p => <[p.2 := (default 0%nat (counts !! p.2) + 1)%nat]> counts)
    ∅ parsed.

(** The body of the loop of lines 39-42; [None] is a [KeyError]. *)
Definition expand_step (type_counts : gmap string nat)
    (st : gmap string nat * list (string * string)) (p : string * string)
  : option (gmap string nat * list (string * string)) :=
  let '(type_seen, out) := st in
  let '(name, t) := p in
  seen ← type_seen !! t;
  let type_seen := <[t := (seen + 1)%nat]> type_seen in
  seen ← type_seen !! t;
  count ← type_counts !! t;
  let col := if decide (1 < count)%nat then t +:+ pretty seen else t in
  Some (type_seen, dict_set out col name).

Fixpoint expand_loop (type_counts : gmap string nat)
    (st : gmap string nat * list (string * string))
    (parsed : list (string * string))
  : option (gmap string nat * list (string * string)) :=
  match parsed with
  | [] => Some st
  | p :: rest => st' ← expand_step type_counts st p; expand_loop type_counts st' rest
  end.

Definition expand_lineage (parse_lineage : string -> list (string * string))
    (row_lineage : string) : option (list (string * string)) :=
  let parsed := parse_lineage row_lineage in
  let type_counts := count_types parsed in
  let type_seen : gmap string nat := (fun _ => 0%nat) <$> type_counts in
  snd <$> expand_loop type_counts (type_seen, []) parsed.

(** How many of the taxa of [parsed] have the type [t]. *)
Definition occurrences (t : string) (parsed : list (string * string)) : nat :=
  length (filter (fun p => p.2 = t) parsed).

(** The column of the taxon at position [i], of type [t]: the type, followed
    by the rank of the taxon among those of its type when there are
    several. *)
Definition column_of (parsed : list (string * string)) (i : nat) (t : string)
  : string :=
  if decide (1 < occurrences t parsed)%nat
  then t +:+ pretty (S (occurrences t (take i parsed)))
  else t.

(** The taxa with their columns, in the order of the lineage. *)
Definition assignments (parsed : list (string * string))
  : list (string * string) :=
  imap (fun i p => (column_of parsed i p.2, p.1)) parsed.

Definition is_digit (c : Ascii.ascii) : bool :=
  (48 <=? Ascii.nat_of_ascii c)%nat && (Ascii.nat_of_ascii c <=? 57)%nat.

Fixpoint all_digits (s : string) : bool :=
  match s with
  | EmptyString => true
  | String c s' => is_digit c && all_digits s'
  end.

Fixpoint ends_with_digit (s : string) : bool :=
  match s with
  | EmptyString => false
  | String c EmptyString => is_digit c
  | String _ s' => ends_with_digit s'
  end.

End ExpandTaxy.

(** A lineage with two clades, parsed. *)
Definition two_clades : list (string * string) :=
  [("Bacteria", "superkingdom"); ("Terrabacteria", "clade");
   ("Bacillota", "phylum"); ("Bacilli", "clade")].

(** A lineage in which a type is the numbered name of another. *)
Definition clashing_types : list (string * string) :=
  [("X", "clade"); ("Y", "clade"); ("Z", "clade1")].

(** * Properties *)

(** ** Floats *)

Lemma fleb_trans a b c : fleb a b = true -> fleb b c = true -> fleb a c = true.
Proof.
  destruct a, b, c; simpl; try done.
  rewrite !Qle_bool_iff. apply Qle_trans.
Qed.

Lemma fleb_total a b :
  isna a = false -> isna b = false -> fleb a b = true \/ fleb b a = true.
Proof.
  destruct a, b; simpl; try done; auto.
  intros _ _. rewrite !Qle_bool_iff.
  destruct (Qlt_le_dec q q0) as [H|H]; [left; by apply Qlt_le_weak|by right].
Qed.

Lemma fleb_refl a : isna a = false -> fleb a a = true.
Proof. destruct a; simpl; try done. intros _. apply Qle_bool_iff, Qle_refl. Qed.

Lemma fleb_notna a b : fleb a b = true -> isna a = false /\ isna b = false.
Proof. by destruct a, b. Qed.

Lemma tm_desc_total a b : tm_desc a b = true \/ tm_desc b a = true.
Proof.
  unfold tm_desc. destruct (isna a) eqn:Ha, (isna b) eqn:Hb; auto.
  destruct (fleb_total a b Ha Hb); auto.
Qed.

Lemma tm_desc_trans a b c :
  tm_desc a b = true -> tm_desc b c = true -> tm_desc a c = true.
Proof.
  unfold tm_desc.
  destruct (isna c) eqn:Hc; [done|].
  destruct (isna b) eqn:Hb; [done|].
  destruct (isna a) eqn:Ha; [done|].
  intros ??. by apply fleb_trans with b.
Qed.

Lemma tm_desc_notna a b :
  isna a = false -> isna b = false -> tm_desc a b = fleb b a.
Proof. unfold tm_desc. by intros -> ->. Qed.

Lemma np_clip_unit t :
  isna t = false ->
  exists c, np_clip t 0 1 = Fin c /\ (0 <= c)%Q /\ (c <= 1)%Q.
Proof.
  destruct t as [| |q|]; try done; intros _; simpl; eexists; (split; [done|]).
  - split; [|done]. apply Q.min_glb; done.
  - split; [apply Q.min_glb; [apply Q.le_max_r|done]|apply Q.le_min_r].
  - split; done.
Qed.

Lemma np_clip_mono a b :
  fleb a b = true -> fleb (np_clip a 0 1) (np_clip b 0 1) = true.
Proof.
  destruct a as [| |p|], b as [| |q|]; simpl; try done; rewrite ?Qle_bool_iff;
    intros H.
  - apply Q.min_le_compat_r, Q.le_max_r.
  - by apply Q.min_le_compat_r, Q.max_le_compat_r.
  - apply Q.le_min_r.
Qed.

Lemma one_minus_anti a b :
  fleb a b = true -> fleb (one_minus b) (one_minus a) = true.
Proof.
  destruct a as [| |p|], b as [| |q|]; simpl; try done; rewrite ?Qle_bool_iff.
  intros H. lra.
Qed.

(** The distance falls as the similarity rises. *)
Lemma distance_anti a b :
  fleb a b = true -> fleb (distance b) (distance a) = true.
Proof. intros H. by apply one_minus_anti, np_clip_mono. Qed.

(** The distance of a similarity that is not NaN is a number of [0,1]. *)
Lemma distance_unit t :
  isna t = false ->
  exists d, distance t = Fin d /\ (0 <= d)%Q /\ (d <= 1)%Q.
Proof.
  intros Ht. destruct (np_clip_unit t Ht) as (c & Hc & H0 & H1).
  unfold distance. rewrite Hc. simpl. eexists; split; [done|]. lra.
Qed.

(** ** The order on identifiers *)

Lemma str_compare_refl s : String.compare s s = Eq.
Proof. by apply String_as_OT.cmp_eq. Qed.

Lemma str_compare_lt_trans a b c :
  String.compare a b = Lt -> String.compare b c = Lt -> String.compare a c = Lt.
Proof.
  intros H1 H2. apply String_as_OT.cmp_lt.
  apply String_as_OT.lt_trans with b; by apply String_as_OT.cmp_lt.
Qed.

Lemma str_compare_gt a b : String.compare a b = Gt -> String.compare b a = Lt.
Proof. intros H. rewrite String.compare_antisym, H. done. Qed.

Lemma str_leb_trans a b c :
  String.leb a b = true -> String.leb b c = true -> String.leb a c = true.
Proof.
  unfold String.leb.
  destruct (String.compare a b) eqn:Hab; [|intros _|done].
  - apply String.compare_eq_iff in Hab as ->. done.
  - destruct (String.compare b c) eqn:Hbc; [|intros _|done].
    + apply String.compare_eq_iff in Hbc as <-. by rewrite Hab.
    + by rewrite (str_compare_lt_trans a b c).
Qed.

Lemma edge_le_compare a b :
  edge_le a b =
  match String.compare (equery a) (equery b) with
  | Lt => true
  | Eq => tm_desc (tm a) (tm b)
  | Gt => false
  end.
Proof.
  unfold edge_le, String.ltb.
  destruct (String.compare (equery a) (equery b)) eqn:Hc; simpl.
  - apply String.compare_eq_iff in Hc as ->. by rewrite String.eqb_refl.
  - done.
  - destruct (String.eqb_spec (equery a) (equery b)) as [Heq|]; [|done].
    rewrite Heq, str_compare_refl in Hc. done.
Qed.

Lemma edge_le_total a b : edge_le a b = true \/ edge_le b a = true.
Proof.
  rewrite !edge_le_compare, (String.compare_antisym (equery a)).
  destruct (String.compare (equery b) (equery a)); simpl; auto.
  apply tm_desc_total.
Qed.

Lemma edge_le_trans a b c :
  edge_le a b = true -> edge_le b c = true -> edge_le a c = true.
Proof.
  rewrite !edge_le_compare.
  destruct (String.compare (equery a) (equery b)) eqn:Hab; [| |done].
  - apply String.compare_eq_iff in Hab. rewrite Hab.
    destruct (String.compare (equery b) (equery c)); [|done..].
    apply tm_desc_trans.
  - intros _.
    destruct (String.compare (equery b) (equery c)) eqn:Hbc; [| |done].
    + apply String.compare_eq_iff in Hbc. by rewrite <- Hbc, Hab.
    + by rewrite (str_compare_lt_trans _ _ _ Hab Hbc).
Qed.

Lemma edge_le_same_query a b :
  equery a = equery b -> edge_le a b = tm_desc (tm a) (tm b).
Proof. intros H. by rewrite edge_le_compare, H, str_compare_refl. Qed.

(** ** Stable sorting *)

Section StableSortFacts.
Context {A : Type} (le : A -> A -> bool).

Let R (a b : A) : Prop := le a b = true.

Lemma insert_sorted_perm x l : insert_sorted le x l ≡ₚ x :: l.
Proof.
  induction l as [|y l IH]; simpl; [done|].
  destruct (le x y); [done|]. rewrite IH. apply Permutation_swap.
Qed.

Lemma stable_sort_perm l : stable_sort le l ≡ₚ l.
Proof.
  induction l as [|x l IH]; simpl; [done|].
  unfold stable_sort in *. by rewrite insert_sorted_perm, IH.
Qed.

Lemma length_stable_sort l : length (stable_sort le l) = length l.
Proof. by rewrite stable_sort_perm. Qed.

Lemma insert_sorted_not_in P `{!forall a, Decision (P a)} x l :
  ~ P x -> filter P (insert_sorted le x l) = filter P l.
Proof.
  intros Hx. induction l as [|y l IH]; simpl.
  - by rewrite filter_cons_False.
  - destruct (le x y).
    + by rewrite (filter_cons_False _ x).
    + by rewrite !(filter_cons _ y), IH.
Qed.

Section Ordered.
Hypothesis le_total : forall a b, le a b = true \/ le b a = true.
Hypothesis le_trans :
  forall a b c, le a b = true -> le b c = true -> le a c = true.

Lemma insert_sorted_sorted x l :
  StronglySorted R l -> StronglySorted R (insert_sorted le x l).
Proof.
  induction 1 as [|y l Hl IH Hy]; simpl.
  - by repeat constructor.
  - destruct (le x y) eqn:Hxy.
    + constructor; [by constructor|].
      constructor; [done|].
      eapply Forall_impl; [done|]. intros z Hz. by apply le_trans with y.
    + constructor; [done|].
      rewrite insert_sorted_perm. constructor; [|done].
      by destruct (le_total x y) as [Hle|Hle]; [rewrite Hle in Hxy|].
Qed.

Lemma stable_sort_sorted l : StronglySorted R (stable_sort le l).
Proof.
  induction l as [|x l IH]; simpl; [constructor|].
  by apply insert_sorted_sorted.
Qed.

(** Sorting and then keeping a class is keeping the class and then
    sorting it, by any order that agrees with [le] on the class. *)
Lemma insert_sorted_in (le' : A -> A -> bool) P
    `{!forall a, Decision (P a)} x l :
  (forall a b, P a -> P b -> le' a b = le a b) ->
  StronglySorted R l -> P x ->
  filter P (insert_sorted le x l) = insert_sorted le' x (filter P l).
Proof.
  intros Hagree Hl Hx. induction Hl as [|y l Hl IH Hy]; simpl.
  - by rewrite filter_cons_True.
  - destruct (le x y) eqn:Hxy.
    + rewrite (filter_cons_True _ x) by done.
      assert (Forall (R x) (filter P (y :: l))) as Hall.
      { apply Forall_forall. intros z Hz%list_elem_of_filter.
        destruct Hz as [_ Hz]. apply elem_of_cons in Hz as [->|Hz]; [done|].
        apply le_trans with y; [done|].
        by apply (proj1 (Forall_forall _ _) Hy). }
      destruct (filter P (y :: l)) as [|z l'] eqn:Hf; [done|].
      simpl. apply Forall_cons in Hall as [Hz _].
      rewrite Hagree; [by rewrite Hz|done|].
      assert (z ∈ filter P (y :: l)) as Hin by (rewrite Hf; left).
      by apply list_elem_of_filter in Hin as [? _].
    + destruct (decide (P y)) as [Hpy|Hpy].
      * rewrite !(filter_cons_True _ y) by done. simpl.
        by rewrite Hagree, Hxy, IH.
      * by rewrite !(filter_cons_False _ y), IH.
Qed.

Lemma filter_stable_sort (le' : A -> A -> bool) P
    `{!forall a, Decision (P a)} l :
  (forall a b, P a -> P b -> le' a b = le a b) ->
  filter P (stable_sort le l) = stable_sort le' (filter P l).
Proof.
  intros Hagree. induction l as [|x l IH]; simpl; [done|].
  destruct (decide (P x)) as [Hx|Hx].
  - rewrite filter_cons_True by done. simpl. rewrite <- IH.
    apply insert_sorted_in; [done| |done]. apply stable_sort_sorted.
  - rewrite filter_cons_False by done. rewrite <- IH.
    by apply insert_sorted_not_in.
Qed.

(** Stability: the elements of a class of ties come out in the order
    they came in. *)
Lemma stable_sort_stable P `{!forall a, Decision (P a)} l :
  (forall a b, P a -> P b -> le a b = true) ->
  filter P (stable_sort le l) = filter P l.
Proof.
  intros Htie.
  rewrite (filter_stable_sort (fun _ _ => true)).
  - by induction (filter P l) as [|y l' IH]; simpl; [|rewrite IH; destruct l'].
  - intros a b Ha Hb. by rewrite Htie.
Qed.
End Ordered.
End StableSortFacts.

(** ** Ranking: [sort_values] and [groupby(...).head(K)] *)

Lemma in_group_sort_values q es :
  in_group q (sort_values es) = stable_sort rank_le (in_group q es).
Proof.
  unfold in_group, sort_values.
  apply filter_stable_sort; [apply edge_le_total|apply edge_le_trans|].
  intros a b Ha Hb. symmetry. apply edge_le_same_query. congruence.
Qed.

Lemma in_group_app q l1 l2 : in_group q (l1 ++ l2) = in_group q l1 ++ in_group q l2.
Proof. apply filter_app. Qed.

Lemma in_group_cons_eq e l :
  in_group (equery e) (e :: l) = e :: in_group (equery e) l.
Proof. unfold in_group. by rewrite filter_cons_True. Qed.

Lemma in_group_cons_ne q e l : equery e <> q -> in_group q (e :: l) = in_group q l.
Proof. intros. unfold in_group. by rewrite filter_cons_False. Qed.

Lemma in_group_head_from (K : nat) q before l :
  in_group q (head_from (Z.of_nat K) before l) =
  take (K - length (in_group q before)) (in_group q l).
Proof.
  revert before. induction l as [|e after IH]; intros before; simpl.
  - unfold in_group. by rewrite !filter_nil, take_nil.
  - rewrite in_group_app, IH, in_group_app, length_app.
    destruct (Z.leb_spec 0 (Z.of_nat K)) as [_|]; [|lia].
    destruct (decide (equery e = q)) as [<-|Hne].
    + rewrite !in_group_cons_eq. simpl.
      destruct (Z.ltb_spec (Z.of_nat (length (in_group (equery e) before)))
                  (Z.of_nat K)) as [Hlt|Hge].
      * rewrite in_group_cons_eq. simpl.
        replace (K - length (in_group (equery e) before))%nat
          with (S (K - (length (in_group (equery e) before) + 1)))%nat by lia.
        done.
      * replace (K - length (in_group (equery e) before))%nat with 0%nat by lia.
        replace (K - (length (in_group (equery e) before) + 1))%nat
          with 0%nat by lia.
        done.
    + rewrite !(in_group_cons_ne q e) by done. simpl.
      rewrite Nat.add_0_r.
      destruct (_ <? _)%Z; [|done].
      by rewrite in_group_cons_ne.
Qed.

Lemma in_group_groupby_head (K : nat) q l :
  in_group q (groupby_head (Z.of_nat K) l) = take K (in_group q l).
Proof.
  unfold groupby_head. rewrite in_group_head_from. simpl.
  by rewrite Nat.sub_0_r.
Qed.

Lemma NoDup_group_keys es : NoDup (group_keys es).
Proof. unfold group_keys. rewrite reverse_Permutation. apply NoDup_remove_dups. Qed.

Lemma elem_of_group_keys q es : q ∈ group_keys es <-> q ∈ equery <$> es.
Proof.
  unfold group_keys.
  by rewrite elem_of_reverse, elem_of_remove_dups, elem_of_reverse.
Qed.

Lemma in_group_nil q es : q ∉ equery <$> es -> in_group q es = [].
Proof.
  intros Hq. induction es as [|e es IH]; [done|].
  unfold in_group in *. rewrite fmap_cons, not_elem_of_cons in Hq.
  destruct Hq as [Hne Hq]. rewrite filter_cons_False by done. by apply IH.
Qed.

(** ** The node index *)

Lemma foldl_insert_notin (l : list string) (o : nat) (m : gmap string nat) s :
  s ∉ l ->
  foldl (fun m p => <[p.2 := p.1]> m) m (zip (seq o (length l)) l) !! s = m !! s.
Proof.
  revert o m. induction l as [|x l IH]; intros o m Hs; simpl; [done|].
  apply not_elem_of_cons in Hs as [Hne Hs].
  rewrite IH by done. by rewrite lookup_insert_ne.
Qed.

Lemma foldl_insert_in (l : list string) (o : nat) (m : gmap string nat) s i :
  NoDup l -> l !! i = Some s ->
  foldl (fun m p => <[p.2 := p.1]> m) m (zip (seq o (length l)) l) !! s
  = Some (o + i)%nat.
Proof.
  revert o m i. induction l as [|x l IH]; intros o m i Hnd Hi; [done|].
  apply NoDup_cons in Hnd as [Hx Hnd]. simpl.
  destruct i as [|i]; simpl in Hi.
  - injection Hi as ->. rewrite foldl_insert_notin by done.
    simpl. by rewrite lookup_insert_eq, Nat.add_0_r.
  - rewrite (IH _ _ i) by done. f_equal. lia.
Qed.

(** [id2ix] sends the identifier at position [i] to [i], and nothing else
    anywhere. *)
Lemma id2ix_of_lookup ids s i :
  NoDup ids -> id2ix_of ids !! s = Some i <-> ids !! i = Some s.
Proof.
  intros Hnd. unfold id2ix_of, enumerate. split.
  - intros Hs. destruct (decide (s ∈ ids)) as [Hin|Hin].
    + apply list_elem_of_lookup in Hin as [j Hj].
      rewrite (foldl_insert_in _ _ _ _ j) in Hs by done. by simplify_eq.
    + by rewrite foldl_insert_notin in Hs.
  - intros Hi. by rewrite (foldl_insert_in _ _ _ _ i).
Qed.

Lemma all_ids_of_perm es :
  all_ids_of es ≡ₚ
  elements ((list_to_set (equery <$> es) : gset string) ∪ list_to_set (etarget <$> es)).
Proof. apply stable_sort_perm. Qed.

Lemma NoDup_all_ids_of es : NoDup (all_ids_of es).
Proof. rewrite all_ids_of_perm. apply NoDup_elements. Qed.

Lemma elem_of_all_ids_of s es :
  s ∈ all_ids_of es <-> s ∈ equery <$> es \/ s ∈ etarget <$> es.
Proof.
  rewrite all_ids_of_perm, elem_of_elements, elem_of_union.
  by rewrite !elem_of_list_to_set.
Qed.

Lemma all_ids_of_sorted es :
  StronglySorted (fun a b => String.leb a b = true) (all_ids_of es).
Proof. apply stable_sort_sorted; [apply String.leb_total|apply str_leb_trans]. Qed.

(** ** Array writes *)

Lemma length_row_of {A} K (self : A) nbrs sentinel :
  (length nbrs <= K)%nat -> length (row_of K self nbrs sentinel) = S K.
Proof.
  intros. unfold row_of. simpl. rewrite length_app, length_replicate. lia.
Qed.

Lemma np_full_nat {A} (n K : nat) (v : A) :
  np_full n (Z.of_nat K + 1) v = Ok (replicate n (row_of K v [] v)).
Proof.
  unfold np_full. destruct (Z.ltb_spec (Z.of_nat K + 1) 0); [lia|].
  replace (Z.to_nat (Z.of_nat K + 1)) with (S K) by lia.
  unfold row_of. simpl. by rewrite Nat.sub_0_r.
Qed.

Lemma set_slice_neighbours {A} K (self : A) (s : A) (n : Z) (vals : list A) :
  (length vals <= K)%nat ->
  n = Z.min (Z.of_nat K) (Z.of_nat (length vals)) ->
  set_slice (row_of K self [] s) 1 (1 + n) (py_take n vals)
  = Ok (row_of K self vals s).
Proof.
  intros Hlen ->. rewrite Z.min_r by lia.
  unfold py_take, set_slice, slice_bound.
  rewrite length_row_of by (simpl; lia).
  destruct (Z.ltb_spec (Z.of_nat (length vals)) 0); [lia|].
  destruct (Z.ltb_spec 1 0); [lia|].
  destruct (Z.ltb_spec (1 + Z.of_nat (length vals)) 0); [lia|].
  rewrite Nat2Z.id, Nat.min_id, firstn_all.
  replace (Z.to_nat 1 `min` S K)%nat with 1%nat by lia.
  replace (Z.to_nat (1 + Z.of_nat (length vals)) `min` S K - 1)%nat
    with (length vals) by lia.
  rewrite decide_True by done.
  unfold row_of. simpl. rewrite Nat.sub_0_r, drop_replicate. done.
Qed.

Lemma set_slice_first {A} (r r' : list A) stop vals :
  set_slice r 1 stop vals = Ok r' -> r' !! 0%nat = r !! 0%nat.
Proof.
  unfold set_slice. set (m := (_ - _)%nat).
  assert (slice_bound (length r) 1 = Nat.min 1 (length r)) as Ha.
  { unfold slice_bound. simpl. done. }
  assert (m <= length r - Nat.min 1 (length r))%nat as Hm.
  { subst m. rewrite Ha. unfold slice_bound.
    destruct (Z.ltb_spec stop 0); lia. }
  rewrite Ha. clearbody m.
  destruct r as [|x r]; simpl in *.
  - assert (m = 0%nat) as -> by lia.
    destruct (decide (length vals = 0%nat)) as [Hv|Hv].
    + intros [= <-]. by destruct vals.
    + destruct vals as [|v [|??]]; try done. by intros [= <-].
  - destruct (decide (length vals = m)).
    + by intros [= <-].
    + destruct vals as [|v [|??]]; try done. by intros [= <-].
Qed.

Lemma set_row_slice_first {A} (a a' : list (list A)) i stop vals j :
  set_row_slice a i 1 stop vals = Ok a' ->
  (a' !! j) ≫= (.!! 0%nat) = (a !! j) ≫= (.!! 0%nat).
Proof.
  unfold set_row_slice. destruct (a !! i) as [r|] eqn:Hr; [|done].
  destruct (set_slice r 1 stop vals) as [r'|] eqn:Hs; [|done].
  simpl. intros [= <-]. apply set_slice_first in Hs.
  destruct (decide (i = j)) as [->|Hne].
  - rewrite list_lookup_insert_eq by by eapply lookup_lt_Some.
    rewrite Hr. done.
  - by rewrite list_lookup_insert_ne.
Qed.

Lemma mapM_targets (id2ix : gmap string nat) sub :
  Forall (fun e => is_Some (id2ix !! etarget e)) sub ->
  map_targets id2ix sub = Ok (target_ix id2ix <$> sub).
Proof.
  unfold map_targets. intros Hall.
  assert (mapM (fun e => Z.of_nat <$> id2ix !! etarget e) sub
          = Some (target_ix id2ix <$> sub)) as ->; [|done].
  induction Hall as [|e sub [n Hn] _ IH]; [done|].
  simpl. rewrite IH. unfold target_ix. rewrite Hn. done.
Qed.

(** ** The two loops of the assembly *)

Lemma rows_are_ext ids K f f' g :
  (forall q, q ∈ ids -> f q = f' q) -> rows_are ids K f g -> rows_are ids K f' g.
Proof.
  intros Hext (Hi & Hd & Hrows). split; [done|split; [done|]].
  intros i q Hq. rewrite <- Hext by by eapply list_elem_of_lookup_2.
  by apply Hrows.
Qed.

Lemma for_each_cons {S X} (body : S -> X -> result S) x xs s :
  for_each body (x :: xs) s = bind (body s x) (for_each body xs).
Proof. done. Qed.

Lemma set_self_loop K n : forall o (P : list (list Z)) (Pd : list (list float)),
  length P = o -> length Pd = o ->
  for_each set_self (seq o n)
    (Knn (P ++ replicate n (row_of K (-1)%Z [] (-1)%Z))
         (Pd ++ replicate n (row_of K PInf [] PInf)))
  = Ok (Knn (P ++ ((fun i => row_of K (Z.of_nat i) [] (-1)%Z) <$> seq o n))
            (Pd ++ replicate n (row_of K (Fin 0) [] PInf))).
Proof.
  induction n as [|n IH]; intros o P Pd HP HPd; [done|].
  simpl. unfold set_self at 1, set_item. simpl.
  rewrite !list_lookup_middle by done. simpl.
  rewrite !insert_app_r_alt by lia. rewrite HP, HPd, Nat.sub_diag. simpl.
  rewrite !(cons_middle _ P), !(cons_middle _ Pd), !app_assoc.
  rewrite IH by (rewrite length_app; simpl; lia).
  by rewrite <- !app_assoc.
Qed.

Lemma fill_row_ok ids K g q sub i :
  NoDup ids -> ids !! i = Some q ->
  (length sub <= K)%nat ->
  Forall (fun e => etarget e ∈ ids) sub ->
  indices g !! i = Some (row_of K (Z.of_nat i) [] (-1)%Z) ->
  dists g !! i = Some (row_of K (Fin 0) [] PInf) ->
  fill_row (id2ix_of ids) (Z.of_nat K) g (q, sub)
  = Ok (Knn
      (<[i := row_of K (Z.of_nat i) (target_ix (id2ix_of ids) <$> sub) (-1)%Z]>
         (indices g))
      (<[i := row_of K (Fin 0) ((fun e => distance (tm e)) <$> sub) PInf]>
         (dists g))).
Proof.
  intros Hnd Hq Hlen Htgt Hi Hd. unfold fill_row.
  rewrite (proj2 (id2ix_of_lookup ids q i Hnd) Hq). simpl.
  rewrite mapM_targets; simpl.
  2:{ eapply Forall_impl; [done|]. intros e [j Hj]%list_elem_of_lookup.
      exists j. by apply id2ix_of_lookup. }
  unfold set_row_slice. rewrite Hi, Hd, length_fmap.
  rewrite set_slice_neighbours by (by rewrite ?length_fmap). simpl.
  rewrite <- (length_fmap (fun e => distance (tm e)) sub).
  rewrite set_slice_neighbours by (by rewrite ?length_fmap). simpl.
  done.
Qed.

Lemma fill_rows_ok ids K (f : string -> list edge) keys :
  NoDup ids -> NoDup keys ->
  (forall q, q ∈ keys ->
     q ∈ ids /\ (length (f q) <= K)%nat /\
     Forall (fun e => etarget e ∈ ids) (f q)) ->
  forall h g,
  (forall q, q ∈ keys -> h q = []) ->
  rows_are ids K h g ->
  exists g',
    for_each (fill_row (id2ix_of ids) (Z.of_nat K))
      ((fun q => (q, f q)) <$> keys) g = Ok g' /\
    rows_are ids K (fun q => if decide (q ∈ keys) then f q else h q) g'.
Proof.
  intros Hnd Hkeys. induction keys as [|q keys IH]; intros Hok h g Hh Hg.
  - exists g. split; [done|]. eapply rows_are_ext; [|done]. done.
  - apply NoDup_cons in Hkeys as [Hq Hkeys].
    destruct (Hok q) as (Hin & Hlen & Htgt); [left|].
    apply list_elem_of_lookup in Hin as [i Hi].
    destruct Hg as (Hli & Hld & Hrows).
    destruct (Hrows i q Hi) as [Hri Hrd].
    apply lookup_lt_Some in Hi as Hlt.
    rewrite Hh in Hri, Hrd by left.
    rewrite fmap_cons, for_each_cons.
    rewrite (fill_row_ok ids K g q (f q) i) by done. simpl.
    set (h1 := fun x => if decide (x = q) then f q else h x).
    set (g1 := Knn _ _).
    assert (forall q', q' ∈ keys ->
      q' ∈ ids /\ (length (f q') <= K)%nat /\
      Forall (fun e => etarget e ∈ ids) (f q')) as Hok'.
    { intros q' Hq'. apply Hok. by right. }
    assert (forall q', q' ∈ keys -> h1 q' = []) as Hh1.
    { intros q' Hq'. unfold h1. rewrite decide_False by by intros ->.
      apply Hh. by right. }
    assert (rows_are ids K h1 g1) as Hg1.
    { split; [|split]; simpl; rewrite ?length_insert; [done..|].
      intros j q' Hj. unfold h1.
      destruct (decide (q' = q)) as [->|Hne].
      - assert (j = i) as -> by exact (NoDup_lookup ids j i q Hnd Hj Hi).
        rewrite !list_lookup_insert_eq by lia. done.
      - assert (j <> i) by congruence.
        rewrite !list_lookup_insert_ne by done. by apply Hrows. }
    destruct (IH Hkeys Hok' h1 g1 Hh1 Hg1) as (g' & Hrun & Hg').
    exists g'. split; [done|]. eapply rows_are_ext; [|done].
    intros x _. simpl. unfold h1.
    destruct (decide (x = q)) as [->|Hne].
    + rewrite decide_False by done. by rewrite decide_True by left.
    + destruct (decide (x ∈ keys)).
      * by rewrite decide_True by by right.
      * by rewrite decide_False by by intros [?|?]%elem_of_cons.
Qed.

(** The assembled graph, when [K] is not negative and the edges handed over
    name known identifiers and come at most [K] to a query. *)
Lemma build_knn_ok ids (K : nat) es :
  NoDup ids ->
  (forall e, e ∈ es -> equery e ∈ ids /\ etarget e ∈ ids) ->
  (forall q, length (in_group q es) <= K)%nat ->
  exists g,
    build_knn (id2ix_of ids) (length ids) (Z.of_nat K) es = Ok g /\
    rows_are ids K (fun q => in_group q es) g.
Proof.
  intros Hnd Hes Hlen. unfold build_knn.
  rewrite !np_full_nat. simpl.
  pose proof (set_self_loop K (length ids) 0 [] [] eq_refl eq_refl) as Hself.
  simpl in Hself. rewrite Hself. simpl.
  destruct (fill_rows_ok ids K (fun q => in_group q es) (group_keys es) Hnd
              (NoDup_group_keys es)) with (h := fun _ : string => @nil edge)
              (g := Knn ((fun i => row_of K (Z.of_nat i) [] (-1)%Z) <$> seq 0 (length ids))
                        (replicate (length ids) (row_of K (Fin 0) [] PInf)))
    as (g & Hrun & Hg).
  - intros q Hq. apply elem_of_group_keys, list_elem_of_fmap in Hq as (e & -> & He).
    split; [by apply Hes|]. split; [done|].
    apply Forall_forall. intros e' He'%list_elem_of_filter.
    apply Hes, He'.
  - done.
  - split; [|split]; simpl;
      rewrite ?length_fmap, ?length_seq, ?length_replicate; [done..|].
    intros i q Hi. apply lookup_lt_Some in Hi as Hlt.
    rewrite list_lookup_fmap, lookup_seq_lt, lookup_replicate_2 by done.
    done.
  - exists g. split; [exact Hrun|].
    eapply rows_are_ext; [|done]. intros q _. simpl.
    destruct (decide (q ∈ group_keys es)) as [|Hq]; [done|].
    symmetry. apply in_group_nil. by rewrite <- elem_of_group_keys.
Qed.

(** ** Which columns a frame has *)

(** Below eight columns the names are a prefix of the basic schema, to be
    computed; from eight on they start with the extended schema. *)
Ltac column_cases df :=
  unfold has_column, columns; destruct df as [n rs]; simpl;
  do 8 (destruct n as [|n]; [by vm_compute|]);
  rewrite decide_True by lia;
  rewrite (bool_decide_eq_true_2 (_ <= _)%nat) by lia;
  apply bool_decide_eq_true_2; repeat first [by left | right].

Lemma has_column_evalue df : has_column "evalue" df = bool_decide (6 <= ncols df)%nat.
Proof. column_cases df. Qed.

Lemma has_column_score df : has_column "score" df = bool_decide (7 <= ncols df)%nat.
Proof. column_cases df. Qed.

Lemma has_column_alntmscore df :
  has_column "alntmscore" df = bool_decide (8 <= ncols df)%nat.
Proof. column_cases df. Qed.

(** ** Similarity *)

Lemma similarity_extended df :
  (8 <= ncols df)%nat -> similarity df = Ok (alntmscore <$> rows df).
Proof.
  intros H. unfold similarity.
  by rewrite has_column_alntmscore, bool_decide_eq_true_2.
Qed.

Lemma similarity_basic df :
  ncols df = 7%nat ->
  similarity df
  = Ok ((fun r => nanmax (fdiv100 (score r)) (where_unit (evalue r))) <$> rows df).
Proof.
  intros H. unfold similarity.
  rewrite has_column_alntmscore, has_column_score, has_column_evalue, H.
  simpl. by rewrite zip_with_fmap_l, zip_with_fmap_r, zip_with_diag.
Qed.

Lemma similarity_evalue_only df :
  ncols df = 6%nat ->
  similarity df = Ok ((fun r => where_unit (evalue r)) <$> rows df).
Proof.
  intros H. unfold similarity.
  by rewrite has_column_alntmscore, has_column_score, has_column_evalue, H.
Qed.

Lemma similarity_too_narrow df :
  (ncols df < 6)%nat -> similarity df = Raise ValueError.
Proof.
  intros H. unfold similarity.
  rewrite has_column_alntmscore, has_column_score, has_column_evalue.
  by rewrite !bool_decide_eq_false_2 by lia.
Qed.

Lemma similarity_cases df :
  (6 <= ncols df)%nat -> exists tms, similarity df = Ok tms /\ length tms = length (rows df).
Proof.
  intros H.
  destruct (decide (8 <= ncols df)%nat);
    [|destruct (decide (ncols df = 7%nat)); [|assert (ncols df = 6%nat) by lia]].
  - rewrite similarity_extended by done. eexists; split; [done|]. by rewrite length_fmap.
  - rewrite similarity_basic by done. eexists; split; [done|]. by rewrite length_fmap.
  - rewrite similarity_evalue_only by done. eexists; split; [done|]. by rewrite length_fmap.
Qed.

Lemma resolved_ok df : (6 <= ncols df)%nat -> exists es, resolved df = Ok es.
Proof.
  intros H. destruct (similarity_cases df H) as (tms & Htms & _).
  unfold resolved. rewrite Htms. simpl. by eexists.
Qed.

Lemma resolved_wide df es : resolved df = Ok es -> (6 <= ncols df)%nat.
Proof.
  intros H. destruct (decide (6 <= ncols df)%nat) as [|Hn]; [done|].
  unfold resolved in H. by rewrite similarity_too_narrow in H by lia.
Qed.

Lemma resolved_notna df es e : resolved df = Ok es -> e ∈ es -> isna (tm e) = false.
Proof.
  unfold resolved. destruct (similarity df) as [tms|]; [|done]. simpl.
  intros [= <-] He. unfold dropna in He. by apply list_elem_of_filter in He as [? _].
Qed.

(** ** What reaches the graph *)

Lemma elem_of_head_from n before l e : e ∈ head_from n before l -> e ∈ l.
Proof.
  revert before. induction l as [|x l IH]; intros before; simpl; [done|].
  intros [He|He]%elem_of_app.
  - destruct (_ <? _)%Z; [|by apply elem_of_nil in He].
    apply list_elem_of_singleton in He as ->. left.
  - right. by eapply IH.
Qed.

Lemma elem_of_filtered a es e : e ∈ filtered a es -> e ∈ es.
Proof.
  unfold filtered, threshold, drop_self.
  destruct (fltb _ _); intros He;
    repeat (apply list_elem_of_filter in He as [_ He]); done.
Qed.

Lemma elem_of_surviving a es e : e ∈ surviving a es -> e ∈ es.
Proof.
  unfold surviving, groupby_head. intros He%elem_of_head_from.
  unfold sort_values in He. rewrite stable_sort_perm in He.
  by eapply elem_of_filtered.
Qed.

Lemma in_group_surviving a (K : nat) q es :
  k a = Z.of_nat K -> in_group q (surviving a es) = top_k K q (filtered a es).
Proof.
  intros HK. unfold surviving. rewrite HK, in_group_groupby_head.
  by rewrite in_group_sort_values.
Qed.

Lemma elem_of_top_k K q es e : e ∈ top_k K q es -> e ∈ es /\ equery e = q.
Proof.
  unfold top_k, ranked. intros He%subseteq_take.
  rewrite stable_sort_perm in He. apply list_elem_of_filter in He. tauto.
Qed.

Lemma length_top_k K q es : (length (top_k K q es) <= K)%nat.
Proof. unfold top_k. rewrite length_take. lia. Qed.

Lemma all_ids_of_empty : all_ids_of [] = [].
Proof.
  unfold all_ids_of. simpl. by rewrite (left_id_L ∅ (∪)), elements_empty.
Qed.

Lemma surviving_nil a : surviving a [] = [].
Proof. unfold surviving, filtered, threshold. by destruct (fltb _ _). Qed.

Lemma all_ids_of_nil es : all_ids_of es = [] -> es = [].
Proof.
  destruct es as [|e es]; [done|]. intros Hnil.
  assert (equery e ∈ all_ids_of (e :: es)) as Hin.
  { apply elem_of_all_ids_of. left. rewrite fmap_cons. left. }
  rewrite Hnil in Hin. by apply elem_of_nil in Hin.
Qed.

(** Resolved edges, and those that pass the filters, are records of the
    input in file order. *)
Lemma resolved_in_file_order df es :
  resolved df = Ok es -> erow <$> es `sublist_of` rows df.
Proof.
  unfold resolved. destruct (similarity df) as [tms|]; [|done]. simpl.
  intros [= <-]. unfold dropna.
  transitivity (erow <$> zip_with Edge (rows df) tms).
  - apply fmap_sublist, sublist_filter.
  - generalize (rows df). clear. intros rs. revert tms.
    induction rs as [|r rs IH]; intros [|t tms]; simpl;
      try apply sublist_nil_l.
    by apply sublist_skip.
Qed.

Lemma filtered_sublist a es : filtered a es `sublist_of` es.
Proof.
  unfold filtered, threshold, drop_self.
  destruct (fltb _ _); [etransitivity|]; apply sublist_filter.
Qed.

(** With [K] not negative the graph is assembled, and row by row it is the
    top [K] of the ranking of the node's edges. *)
Lemma prepare_ok a df es (K : nat) :
  k a = Z.of_nat K ->
  (umap_n_neighbors a <= k a + 1)%Z ->
  resolved df = Ok es ->
  exists g,
    prepare a df = Ok (all_ids_of es, g) /\
    rows_are (all_ids_of es) K (fun q => top_k K q (filtered a es)) g.
Proof.
  intros HK Hu Hres. unfold prepare.
  rewrite decide_True by done. rewrite Hres. simpl.
  destruct (build_knn_ok (all_ids_of es) K (surviving a es)) as (g & Hg & Hrows).
  - apply NoDup_all_ids_of.
  - intros e He%elem_of_surviving.
    split; apply elem_of_all_ids_of; [left|right]; by apply list_elem_of_fmap_2.
  - intros q. rewrite (in_group_surviving a K) by done. apply length_top_k.
  - exists g. rewrite HK, Hg. split; [done|].
    eapply rows_are_ext; [|done]. intros q _. simpl.
    by apply in_group_surviving.
Qed.

(** Whenever the graph is assembled: either [K] is not negative, or there
    is no node at all. *)
Lemma prepare_inv a df ids g :
  prepare a df = Ok (ids, g) ->
  exists es,
    resolved df = Ok es /\ ids = all_ids_of es /\
    (umap_n_neighbors a <= k a + 1)%Z /\
    ((exists K : nat, k a = Z.of_nat K /\
        rows_are ids K (fun q => top_k K q (filtered a es)) g) \/
     (k a = (-1)%Z /\ es = [] /\ ids = [] /\ g = Knn [] [])).
Proof.
  intros Hp. pose proof Hp as Hp'. unfold prepare in Hp.
  destruct (decide (umap_n_neighbors a <= k a + 1)%Z) as [Hu|]; [|done].
  destruct (resolved df) as [es|] eqn:Hres; [|done]. simpl in Hp.
  exists es. split; [done|].
  destruct (decide (0 <= k a)%Z) as [Hk|Hk].
  - destruct (prepare_ok a df es (Z.to_nat (k a))) as (g' & Hg' & Hrows);
      [lia|done..|].
    rewrite Hp' in Hg'. injection Hg' as -> ->.
    split; [done|]. split; [done|]. left. exists (Z.to_nat (k a)).
    split; [lia|done].
  - destruct (build_knn _ _ _ _) as [g'|] eqn:Hb; [|done].
    injection Hp as <- <-. unfold build_knn, np_full in Hb.
    destruct (Z.ltb_spec (k a + 1) 0); [done|].
    assert (k a = (-1)%Z) as Hm by lia. rewrite Hm in Hb. simpl in Hb.
    destruct (all_ids_of es) as [|s ids'] eqn:Hids; [|done].
    apply all_ids_of_nil in Hids as ->.
    rewrite surviving_nil in Hb. simpl in Hb. injection Hb as <-.
    split; [done|]. split; [done|]. by right.
Qed.

(** ** Rows of the assembled graph *)

Lemma rank_le_total a b : rank_le a b = true \/ rank_le b a = true.
Proof. apply tm_desc_total. Qed.

Lemma rank_le_trans a b c :
  rank_le a b = true -> rank_le b c = true -> rank_le a c = true.
Proof. apply tm_desc_trans. Qed.

Lemma ranked_sorted q es : StronglySorted (fun a b => rank_le a b = true) (ranked q es).
Proof. apply stable_sort_sorted; [apply rank_le_total|apply rank_le_trans]. Qed.

Lemma ranked_perm q es : ranked q es ≡ₚ in_group q es.
Proof. apply stable_sort_perm. Qed.

Lemma StronglySorted_take_list {A} (R : relation A) n l :
  StronglySorted R l -> StronglySorted R (take n l).
Proof.
  intros Hl. revert n. induction Hl as [|x l Hl IH Hx]; intros [|n]; simpl;
    try constructor; [done|].
  eapply Forall_forall. intros y Hy%subseteq_take.
  by apply (proj1 (Forall_forall _ _) Hx).
Qed.

Lemma StronglySorted_fmap_on {A B} (R1 : relation A) (R2 : relation B)
    (P : A -> Prop) (f : A -> B) l :
  (forall x y, P x -> P y -> R1 x y -> R2 (f x) (f y)) ->
  Forall P l -> StronglySorted R1 l -> StronglySorted R2 (f <$> l).
Proof.
  intros Hf HP Hl. induction Hl as [|x l Hl IH Hx]; simpl; [constructor|].
  apply Forall_cons in HP as [Px HP]. constructor; [by apply IH|].
  apply Forall_fmap, Forall_forall. intros y Hy. simpl.
  apply Hf; [done| |].
  - by apply (proj1 (Forall_forall _ _) HP).
  - by apply (proj1 (Forall_forall _ _) Hx).
Qed.

Lemma target_ix_in_range ids e :
  NoDup ids -> etarget e ∈ ids ->
  exists n, id2ix_of ids !! etarget e = Some n /\ ids !! n = Some (etarget e) /\
            target_ix (id2ix_of ids) e = Z.of_nat n /\ (n < length ids)%nat.
Proof.
  intros Hnd [n Hn]%list_elem_of_lookup. exists n.
  assert (id2ix_of ids !! etarget e = Some n) as Hl by by apply id2ix_of_lookup.
  split; [done|]. split; [done|]. split.
  - unfold target_ix. by rewrite Hl.
  - by eapply lookup_lt_Some.
Qed.

(** The edges written in a row come from resolved edges: their similarity
    is a number and both their ends are nodes. *)
Lemma top_k_resolved a df es (K : nat) q e :
  resolved df = Ok es -> e ∈ top_k K q (filtered a es) ->
  isna (tm e) = false /\ etarget e ∈ all_ids_of es /\ equery e = q /\
  e ∈ filtered a es.
Proof.
  intros Hres [He Hq]%elem_of_top_k. pose proof He as He'.
  apply elem_of_filtered in He.
  split; [by eapply resolved_notna|]. split; [|done].
  apply elem_of_all_ids_of. right. by apply list_elem_of_fmap_2.
Qed.

(** ** The end-to-end example *)

Example abc_end_to_end : prepare abc_args abc_frame = Ok (abc_ids, abc_graph).
Proof. by vm_compute. Qed.

Example abc_distances :
  feqb (distance (Fin 0.9)) (Fin 0.1) = true /\
  feqb (distance (Fin 0.4)) (Fin 0.6) = true.
Proof. by vm_compute. Qed.

(** An identifier that is only ever a target has a row with its self-loop
    alone. *)
Example target_only_row :
  indices abc_graph !! 2%nat = Some [2; -1; -1]%Z /\
  dists abc_graph !! 2%nat = Some [Fin 0; PInf; PInf].
Proof. done. Qed.

(** * The claims *)

(** C6. Self-loop invariant: whatever the input and the configuration, the
    assembled graph has one row per node, row [i] starts with the index [i]
    at distance [0.0], and no write of the neighbour loop changes column 0
    of any row. *)
Theorem self_loop_invariant (a : args) (df : frame) (ids : list string) (g : knn) :
  prepare a df = Ok (ids, g) ->
  length (indices g) = length ids /\
  length (dists g) = length ids /\
  (forall i : nat, (i < length ids)%nat ->
     exists r d,
       indices g !! i = Some r /\ r !! 0%nat = Some (Z.of_nat i) /\
       dists g !! i = Some d /\ d !! 0%nat = Some (Fin 0)) /\
  (forall id2ix K g0 grp g1 (j : nat),
     fill_row id2ix K g0 grp = Ok g1 ->
     (indices g1 !! j) ≫= (.!! 0%nat) = (indices g0 !! j) ≫= (.!! 0%nat) /\
     (dists g1 !! j) ≫= (.!! 0%nat) = (dists g0 !! j) ≫= (.!! 0%nat)).
Proof.
  intros Hp.
  assert (forall id2ix K g0 grp g1 (j : nat),
     fill_row id2ix K g0 grp = Ok g1 ->
     (indices g1 !! j) ≫= (.!! 0%nat) = (indices g0 !! j) ≫= (.!! 0%nat) /\
     (dists g1 !! j) ≫= (.!! 0%nat) = (dists g0 !! j) ≫= (.!! 0%nat)) as Hcol0.
  { intros id2ix K g0 [q sub] g1 j. unfold fill_row.
    destruct (id2ix !! q) as [i|]; [|done]. simpl.
    destruct (map_targets id2ix sub) as [js|]; [|done]. simpl.
    destruct (set_row_slice (indices g0) _ _ _ _) as [ind|] eqn:Hi; [|done].
    simpl.
    destruct (set_row_slice (dists g0) _ _ _ _) as [dst|] eqn:Hd; [|done].
    simpl. intros [= <-]. simpl.
    split; by eapply set_row_slice_first. }
  destruct (prepare_inv a df ids g Hp) as (es & Hres & -> & Hu & Hcase).
  destruct Hcase as [(K & HK & Hi & Hd & Hrows)|(_ & _ & Hnil & ->)].
  - split; [done|]. split; [done|]. split; [|done].
    intros i Hlt. apply lookup_lt_is_Some_2 in Hlt as [q Hq].
    destruct (Hrows i q Hq) as [-> ->]. by eexists _, _.
  - rewrite Hnil. split; [done|]. split; [done|]. split; [|done].
    simpl. lia.
Qed.

Lemma self_loop_invariant_witness :
  prepare abc_args abc_frame = Ok (abc_ids, abc_graph) /\
  length (indices abc_graph) = length abc_ids /\
  length (dists abc_graph) = length abc_ids /\
  (forall i : nat, (i < length abc_ids)%nat ->
     exists r d,
       indices abc_graph !! i = Some r /\ r !! 0%nat = Some (Z.of_nat i) /\
       dists abc_graph !! i = Some d /\ d !! 0%nat = Some (Fin 0)) /\
  (forall id2ix K g0 grp g1 (j : nat),
     fill_row id2ix K g0 grp = Ok g1 ->
     (indices g1 !! j) ≫= (.!! 0%nat) = (indices g0 !! j) ≫= (.!! 0%nat) /\
     (dists g1 !! j) ≫= (.!! 0%nat) = (dists g0 !! j) ≫= (.!! 0%nat)).
Proof.
  assert (prepare abc_args abc_frame = Ok (abc_ids, abc_graph)) as H
    by (vm_compute; reflexivity).
  split; [exact H|].
  exact (self_loop_invariant abc_args abc_frame abc_ids abc_graph H).
Defined.

(** C7. Row ordering invariant: in every row of the assembled graph the
    columns after the first are a run of populated entries (an index that is
    not the sentinel, a finite distance) followed by sentinels only (index
    [-1], distance [+inf]), and the distances of the populated entries are
    non-decreasing from column 1 onward. *)
Theorem row_ordering_invariant (a : args) (df : frame) (ids : list string) (g : knn) :
  prepare a df = Ok (ids, g) ->
  forall (i : nat) (r : list Z) (d : list float),
    indices g !! i = Some r -> dists g !! i = Some d ->
    exists (js : list Z) (ds : list float) (m : nat),
      r = Z.of_nat i :: js ++ replicate m (-1)%Z /\
      d = Fin 0 :: ds ++ replicate m PInf /\
      length js = length ds /\
      Forall (fun j => (0 <= j)%Z) js /\
      Forall (fun x => exists q, x = Fin q) ds /\
      StronglySorted (fun x y => fleb x y = true) ds.
Proof.
  intros Hp i r d Hr Hd.
  destruct (prepare_inv a df ids g Hp) as (es & Hres & -> & Hu & Hcase).
  destruct Hcase as [(K & HK & Hi & _ & Hrows)|(_ & _ & _ & ->)]; [|done].
  assert (i < length (all_ids_of es))%nat as Hlt.
  { rewrite <- Hi. by eapply lookup_lt_Some. }
  apply lookup_lt_is_Some_2 in Hlt as [q Hq].
  destruct (Hrows i q Hq) as [Hr' Hd']. rewrite Hr in Hr'. rewrite Hd in Hd'.
  injection Hr' as ->. injection Hd' as ->.
  set (top := top_k K q (filtered a es)).
  assert (Forall (fun e => isna (tm e) = false) top) as Hna.
  { apply Forall_forall. intros e He.
    by destruct (top_k_resolved a df es K q e Hres He) as [? _]. }
  exists (target_ix (id2ix_of (all_ids_of es)) <$> top),
         ((fun e => distance (tm e)) <$> top), (K - length top)%nat.
  unfold row_of. rewrite !length_fmap. split; [done|]. split; [done|]. split; [done|].
  split; [|split].
  - apply Forall_fmap, Forall_forall. intros e _. unfold target_ix. simpl. lia.
  - apply Forall_fmap. eapply Forall_impl; [exact Hna|]. simpl.
    intros e He. destruct (distance_unit (tm e) He) as (x & -> & _). by eexists.
  - eapply (StronglySorted_fmap_on (fun a b => rank_le a b = true) _
              (fun e => isna (tm e) = false)); [|exact Hna|].
    + intros x y Hx Hy. unfold rank_le. rewrite tm_desc_notna by done.
      apply distance_anti.
    + apply StronglySorted_take_list, ranked_sorted.
Qed.

Lemma row_ordering_invariant_witness :
  prepare abc_args abc_frame = Ok (abc_ids, abc_graph) /\
  forall (i : nat) (r : list Z) (d : list float),
    indices abc_graph !! i = Some r -> dists abc_graph !! i = Some d ->
    exists (js : list Z) (ds : list float) (m : nat),
      r = Z.of_nat i :: js ++ replicate m (-1)%Z /\
      d = Fin 0 :: ds ++ replicate m PInf /\
      length js = length ds /\
      Forall (fun j => (0 <= j)%Z) js /\
      Forall (fun x => exists q, x = Fin q) ds /\
      StronglySorted (fun x y => fleb x y = true) ds.
Proof.
  assert (prepare abc_args abc_frame = Ok (abc_ids, abc_graph)) as H
    by (vm_compute; reflexivity).
  split; [exact H|].
  exact (row_ordering_invariant abc_args abc_frame abc_ids abc_graph H).
Defined.

(** C10. The node index covers every edge that survives the filters: with a
    valid configuration and an input of at least six columns the graph is
    assembled without a failed lookup, every surviving edge has both its
    ends in the index map, and every populated entry of columns 1..K is an
    index in [0, N). *)
Theorem target_lookup_never_fails (a : args) (df : frame) :
  (0 <= k a)%Z -> (umap_n_neighbors a <= k a + 1)%Z -> (6 <= ncols df)%nat ->
  exists es ids g,
    resolved df = Ok es /\
    prepare a df = Ok (ids, g) /\
    (forall e, e ∈ surviving a es ->
       is_Some (id2ix_of ids !! equery e) /\
       is_Some (id2ix_of ids !! etarget e)) /\
    (forall (i j : nat) (r : list Z) (x : Z),
       indices g !! i = Some r -> (1 <= j)%nat -> r !! j = Some x ->
       x <> (-1)%Z -> (0 <= x < Z.of_nat (length ids))%Z).
Proof.
  intros Hk Hu Hn. destruct (resolved_ok df Hn) as [es Hres].
  destruct (prepare_ok a df es (Z.to_nat (k a))) as (g & Hp & Hi & _ & Hrows);
    [lia|done..|].
  exists es, (all_ids_of es), g. split; [done|]. split; [done|].
  pose proof (NoDup_all_ids_of es) as Hnd. split.
  - intros e He%elem_of_surviving.
    assert (equery e ∈ all_ids_of es) as [n Hq]%list_elem_of_lookup.
    { apply elem_of_all_ids_of. left. by apply list_elem_of_fmap_2. }
    assert (etarget e ∈ all_ids_of es) as [m Ht]%list_elem_of_lookup.
    { apply elem_of_all_ids_of. right. by apply list_elem_of_fmap_2. }
    split; [exists n|exists m]; by apply id2ix_of_lookup.
  - intros i j r x Hr Hj Hx Hne.
    assert (i < length (all_ids_of es))%nat as Hlt.
    { rewrite <- Hi. by eapply lookup_lt_Some. }
    apply lookup_lt_is_Some_2 in Hlt as [q Hq].
    destruct (Hrows i q Hq) as [Hr' _]. rewrite Hr in Hr'. injection Hr' as ->.
    destruct j as [|j]; [lia|]. unfold row_of in Hx. simpl in Hx.
    apply list_elem_of_lookup_2, elem_of_app in Hx as [Hx|Hx].
    + apply list_elem_of_fmap in Hx as (e & -> & He).
      destruct (top_k_resolved a df es _ q e Hres He) as (_ & Ht & _).
      destruct (target_ix_in_range _ e Hnd Ht) as (n & _ & _ & -> & Hlt). lia.
    + by apply elem_of_replicate in Hx as [-> _].
Qed.

Lemma target_lookup_never_fails_witness :
  (0 <= k abc_args)%Z /\ (umap_n_neighbors abc_args <= k abc_args + 1)%Z /\
  (6 <= ncols abc_frame)%nat /\
  exists es ids g,
    resolved abc_frame = Ok es /\
    prepare abc_args abc_frame = Ok (ids, g) /\
    (forall e, e ∈ surviving abc_args es ->
       is_Some (id2ix_of ids !! equery e) /\
       is_Some (id2ix_of ids !! etarget e)) /\
    (forall (i j : nat) (r : list Z) (x : Z),
       indices g !! i = Some r -> (1 <= j)%nat -> r !! j = Some x ->
       x <> (-1)%Z -> (0 <= x < Z.of_nat (length ids))%Z).
Proof.
  assert (0 <= k abc_args)%Z as H1 by (simpl; lia).
  assert (umap_n_neighbors abc_args <= k abc_args + 1)%Z as H2 by (simpl; lia).
  assert (6 <= ncols abc_frame)%nat as H3 by (simpl; lia).
  split; [exact H1|]. split; [exact H2|]. split; [exact H3|].
  exact (target_lookup_never_fails abc_args abc_frame H1 H2 H3).
Defined.

(** C3. Per-query ranking: the edges of a query are ranked by [tm]
    descending with a stable sort (a permutation of the query's filtered
    edges, which are records of the input in file order, sorted by
    decreasing [tm], in which the edges of equal [tm] keep their input
    order); the sort of the whole frame restricted to the query
    is that ranking, and its first [K] edges are what the row of the query
    holds in columns 1.., in that order: the index written for an edge is
    the position of its target in the node list. *)
Theorem per_query_ranking (a : args) (df : frame) (K : nat) (es : list edge) :
  k a = Z.of_nat K -> (umap_n_neighbors a <= k a + 1)%Z -> resolved df = Ok es ->
  exists g,
    prepare a df = Ok (all_ids_of es, g) /\
    erow <$> filtered a es `sublist_of` rows df /\
    forall (i : nat) (q : string), all_ids_of es !! i = Some q ->
      ranked q (filtered a es) ≡ₚ in_group q (filtered a es) /\
      StronglySorted (fun x y => fleb (tm y) (tm x) = true)
        (ranked q (filtered a es)) /\
      (forall t : float,
         filter (fun e => feqb (tm e) t = true) (ranked q (filtered a es))
         = filter (fun e => feqb (tm e) t = true) (in_group q (filtered a es))) /\
      in_group q (sort_values (filtered a es)) = ranked q (filtered a es) /\
      Forall (fun e =>
                all_ids_of es
                  !! Z.to_nat (target_ix (id2ix_of (all_ids_of es)) e)
                = Some (etarget e))
        (take K (ranked q (filtered a es))) /\
      indices g !! i
        = Some (row_of K (Z.of_nat i)
                  (target_ix (id2ix_of (all_ids_of es))
                     <$> take K (ranked q (filtered a es))) (-1)%Z) /\
      dists g !! i
        = Some (row_of K (Fin 0)
                  ((fun e => distance (tm e))
                     <$> take K (ranked q (filtered a es))) PInf).
Proof.
  intros HK Hu Hres.
  destruct (prepare_ok a df es K HK Hu Hres) as (g & Hp & _ & _ & Hrows).
  exists g. split; [done|]. split.
  { transitivity (erow <$> es); [|by apply resolved_in_file_order].
    apply fmap_sublist, filtered_sublist. }
  intros i q Hq.
  assert (Forall (fun e => isna (tm e) = false) (ranked q (filtered a es)))
    as Hna.
  { apply Forall_forall. intros e He. rewrite ranked_perm in He.
    apply list_elem_of_filter in He as [_ He%elem_of_filtered].
    by eapply resolved_notna. }
  split; [apply ranked_perm|]. split; [|split; [|split; [|split]]].
  - rewrite <- (list_fmap_id (ranked q (filtered a es))).
    eapply (StronglySorted_fmap_on (fun a b => rank_le a b = true) _
              (fun e => isna (tm e) = false)); [|exact Hna|apply ranked_sorted].
    intros x y Hx Hy. unfold rank_le. by rewrite tm_desc_notna.
  - intros t. unfold ranked.
    apply stable_sort_stable; [apply rank_le_total|apply rank_le_trans|].
    intros x y [Hx1 Hx2]%andb_prop [Hy1 Hy2]%andb_prop.
    unfold rank_le.
    rewrite tm_desc_notna by (by eapply fleb_notna).
    by apply fleb_trans with t.
  - apply in_group_sort_values.
  - apply Forall_forall. intros e He.
    destruct (top_k_resolved a df es K q e Hres He) as (_ & Ht & _).
    destruct (target_ix_in_range _ e (NoDup_all_ids_of es) Ht)
      as (n & _ & Hn & -> & _).
    by rewrite Nat2Z.id.
  - apply (Hrows i q Hq).
Qed.

Lemma per_query_ranking_witness :
  k abc_args = Z.of_nat 2 /\
  (umap_n_neighbors abc_args <= k abc_args + 1)%Z /\
  resolved abc_frame = Ok abc_edges /\
  exists g,
    prepare abc_args abc_frame = Ok (all_ids_of abc_edges, g) /\
    erow <$> filtered abc_args abc_edges `sublist_of` rows abc_frame /\
    forall (i : nat) (q : string), all_ids_of abc_edges !! i = Some q ->
      ranked q (filtered abc_args abc_edges)
        ≡ₚ in_group q (filtered abc_args abc_edges) /\
      StronglySorted (fun x y => fleb (tm y) (tm x) = true)
        (ranked q (filtered abc_args abc_edges)) /\
      (forall t : float,
         filter (fun e => feqb (tm e) t = true)
           (ranked q (filtered abc_args abc_edges))
         = filter (fun e => feqb (tm e) t = true)
             (in_group q (filtered abc_args abc_edges))) /\
      in_group q (sort_values (filtered abc_args abc_edges))
        = ranked q (filtered abc_args abc_edges) /\
      Forall (fun e =>
                all_ids_of abc_edges
                  !! Z.to_nat (target_ix (id2ix_of (all_ids_of abc_edges)) e)
                = Some (etarget e))
        (take 2 (ranked q (filtered abc_args abc_edges))) /\
      indices g !! i
        = Some (row_of 2 (Z.of_nat i)
                  (target_ix (id2ix_of (all_ids_of abc_edges))
                     <$> take 2 (ranked q (filtered abc_args abc_edges)))
                  (-1)%Z) /\
      dists g !! i
        = Some (row_of 2 (Fin 0)
                  ((fun e => distance (tm e))
                     <$> take 2 (ranked q (filtered abc_args abc_edges)))
                  PInf).
Proof.
  assert (k abc_args = Z.of_nat 2) as H1 by reflexivity.
  assert (umap_n_neighbors abc_args <= k abc_args + 1)%Z as H2 by (simpl; lia).
  assert (resolved abc_frame = Ok abc_edges) as H3 by (vm_compute; reflexivity).
  split; [exact H1|]. split; [exact H2|]. split; [exact H3|].
  exact (per_query_ranking abc_args abc_frame 2 abc_edges H1 H2 H3).
Defined.

Lemma zip_with_Edge_fmap (f : row -> float) (rs : list row) :
  zip_with Edge rs (f <$> rs) = (fun r => Edge r (f r)) <$> rs.
Proof. by rewrite zip_with_fmap_r, zip_with_diag. Qed.

(** C1, as stated, fails: in an input that has the alignment-score column, a
    record whose alignment score is empty, with score 80 and no evalue, gets
    no similarity and is dropped, where the record-by-record policy gives it
    0.8. *)
Lemma null_alntmscore_is_dropped :
  similarity mixed_frame = Ok [Fin 0.9; NaN] /\
  feqb (spec_tm (mk_row "A" "C" NaN (Fin 80) NaN)) (Fin 0.8) = true /\
  resolved mixed_frame = Ok [Edge (mk_row "A" "B" NaN NaN (Fin 0.9)) (Fin 0.9)].
Proof. by vm_compute. Qed.

(** C1, amended. The similarity follows the columns of the input, not the
    record: with the alignment-score column every record takes its alignment
    score, and those where it is empty are dropped; without it every record
    takes the maximum of its candidates, [score / 100] when the input has
    the score column and [evalue] when it lies in [0,1], so that score 80
    without evalue gives 0.8. *)
Theorem similarity_by_schema (df : frame) :
  (6 <= ncols df)%nat ->
  similarity df
    = Ok ((fun r => if has_column "alntmscore" df then alntmscore r
                    else spec_tm (visible df r)) <$> rows df) /\
  (has_column "alntmscore" df = true ->
     resolved df
       = Ok (filter (fun e => isna (tm e) = false)
               ((fun r => Edge r (alntmscore r)) <$> rows df))) /\
  (forall r : row,
     has_column "alntmscore" df = false -> has_column "score" df = true ->
     score r = Fin 80 -> isna (evalue r) = true ->
     feqb (spec_tm (visible df r)) (Fin 0.8) = true).
Proof.
  intros Hn. split; [|split].
  - destruct (decide (8 <= ncols df)%nat) as [H8|H8].
    + rewrite similarity_extended by done. f_equal. apply list_fmap_ext.
      intros i r _. by rewrite has_column_alntmscore, bool_decide_eq_true_2.
    + assert (has_column "alntmscore" df = false) as Ha.
      { rewrite has_column_alntmscore. by apply bool_decide_eq_false_2. }
      assert (has_column "evalue" df = true) as He.
      { rewrite has_column_evalue. by apply bool_decide_eq_true_2. }
      destruct (decide (ncols df = 7%nat)) as [H7|H7].
      * rewrite similarity_basic by done. f_equal. apply list_fmap_ext.
        intros i r _. unfold spec_tm, visible. simpl.
        rewrite Ha, He, has_column_score, bool_decide_eq_true_2 by lia. done.
      * rewrite similarity_evalue_only by lia. f_equal. apply list_fmap_ext.
        intros i r _. unfold spec_tm, visible. simpl.
        rewrite Ha, He, has_column_score, bool_decide_eq_false_2 by lia. done.
  - intros Ha. unfold resolved, similarity. rewrite Ha. simpl.
    by rewrite zip_with_Edge_fmap.
  - intros r Ha Hs Hsc Hev. unfold spec_tm, visible. simpl.
    rewrite Ha, Hs, Hsc. simpl.
    destruct (has_column "evalue" df); [|done].
    by destruct (evalue r).
Qed.

Lemma similarity_by_schema_witness :
  (6 <= ncols basic_frame)%nat /\
  similarity basic_frame
    = Ok ((fun r => if has_column "alntmscore" basic_frame then alntmscore r
                    else spec_tm (visible basic_frame r)) <$> rows basic_frame) /\
  (has_column "alntmscore" basic_frame = true ->
     resolved basic_frame
       = Ok (filter (fun e => isna (tm e) = false)
               ((fun r => Edge r (alntmscore r)) <$> rows basic_frame))) /\
  (forall r : row,
     has_column "alntmscore" basic_frame = false ->
     has_column "score" basic_frame = true ->
     score r = Fin 80 -> isna (evalue r) = true ->
     feqb (spec_tm (visible basic_frame r)) (Fin 0.8) = true).
Proof.
  assert (6 <= ncols basic_frame)%nat as H by (simpl; lia).
  split; [exact H|]. exact (similarity_by_schema basic_frame H).
Defined.

(** C5. The code breaks the range that the claim states and that its own
    comment on line 56 announces ([Compute TM-like similarity in [0,1]]):
    the [evalue] candidate is limited to [0,1] on line 68, but [score / 100]
    and [alntmscore] are not. A score of 500 is retained with [tm = 5], and
    an [alntmscore] of 1.5 is retained as it is. *)
Lemma tm_outside_unit_interval :
  resolved over_score_frame
    = Ok [Edge (mk_row "A" "B" NaN (Fin 500) NaN) (Fin (500 / 100))] /\
  fleb (Fin (500 / 100)) (Fin 1) = false /\
  resolved over_tm_frame
    = Ok [Edge (mk_row "A" "B" NaN NaN (Fin 1.5)) (Fin 1.5)] /\
  fleb (Fin 1.5) (Fin 1) = false.
Proof. by vm_compute. Qed.

(** X21. What does hold of a retained edge: its similarity is not NaN, and
    the distance computed from it, [1 - clip(tm, 0, 1)], lies in [0,1]; the
    similarity itself lies in [0,1] when [evalue] is its only source, that
    is in an input of six columns. *)
Theorem retained_tm_and_distance (df : frame) (es : list edge) (e : edge) :
  resolved df = Ok es -> e ∈ es ->
  isna (tm e) = false /\
  (exists d : Q, distance (tm e) = Fin d /\ (0 <= d)%Q /\ (d <= 1)%Q) /\
  (ncols df = 6%nat ->
     fleb (Fin 0) (tm e) = true /\ fleb (tm e) (Fin 1) = true).
Proof.
  intros Hres He.
  assert (isna (tm e) = false) as Hna by by eapply resolved_notna.
  split; [done|]. split; [by apply distance_unit|].
  intros H6. unfold resolved in Hres.
  rewrite similarity_evalue_only in Hres by done. simpl in Hres.
  injection Hres as <-. rewrite zip_with_Edge_fmap in He.
  apply list_elem_of_filter in He as [_ He].
  apply list_elem_of_fmap in He as (r & -> & _). simpl in *.
  unfold where_unit in *.
  destruct (fleb (Fin 0) (evalue r)) eqn:H0, (fleb (evalue r) (Fin 1)) eqn:H1;
    done.
Qed.

Lemma retained_tm_and_distance_witness :
  resolved evalue_frame
    = Ok [Edge (mk_row "A" "B" (Fin 0.7) NaN NaN) (Fin 0.7)] /\
  Edge (mk_row "A" "B" (Fin 0.7) NaN NaN) (Fin 0.7)
    ∈ [Edge (mk_row "A" "B" (Fin 0.7) NaN NaN) (Fin 0.7)] /\
  isna (Fin 0.7) = false /\
  (exists d : Q, distance (Fin 0.7) = Fin d /\ (0 <= d)%Q /\ (d <= 1)%Q) /\
  (ncols evalue_frame = 6%nat ->
     fleb (Fin 0) (Fin 0.7) = true /\ fleb (Fin 0.7) (Fin 1) = true).
Proof.
  assert (resolved evalue_frame
    = Ok [Edge (mk_row "A" "B" (Fin 0.7) NaN NaN) (Fin 0.7)]) as H1
    by (vm_compute; reflexivity).
  assert (Edge (mk_row "A" "B" (Fin 0.7) NaN NaN) (Fin 0.7)
    ∈ [Edge (mk_row "A" "B" (Fin 0.7) NaN NaN) (Fin 0.7)]) as H2
    by apply list_elem_of_here.
  split; [exact H1|]. split; [exact H2|].
  exact (retained_tm_and_distance evalue_frame _ _ H1 H2).
Defined.

(** C2, as stated, fails: the identifiers of a record whose similarity does
    not resolve get no node, although the record was loaded. *)
Lemma node_set_skips_unresolved :
  match prepare default_args unresolved_frame with
  | Ok (ids, _) => ids = ["A"; "B"]
  | Raise _ => False
  end /\
  spec_node_set unresolved_frame = ["A"; "B"; "C"; "D"].
Proof. by vm_compute. Qed.

(** C2, amended. The node set is the lexicographically sorted union, without
    repetition, of the identifiers in the query or target role of the
    records whose similarity resolved, whether or not they pass the later
    filters; the index map sends the identifier at position [i] of that
    list to [i], a bijection onto [0, N). *)
Theorem node_set_of_resolved (a : args) (df : frame) (ids : list string) (g : knn) :
  prepare a df = Ok (ids, g) ->
  exists es,
    resolved df = Ok es /\
    (forall s, s ∈ ids <-> exists e, e ∈ es /\ (equery e = s \/ etarget e = s)) /\
    StronglySorted (fun x y => String.leb x y = true) ids /\
    NoDup ids /\
    (forall s (i : nat), id2ix_of ids !! s = Some i <-> ids !! i = Some s) /\
    (forall s (i : nat), id2ix_of ids !! s = Some i -> (i < length ids)%nat).
Proof.
  intros Hp. destruct (prepare_inv a df ids g Hp) as (es & Hres & -> & _).
  exists es. split; [done|].
  pose proof (NoDup_all_ids_of es) as Hnd.
  split; [|split; [apply all_ids_of_sorted|split; [done|split]]].
  - intros s. rewrite elem_of_all_ids_of, !list_elem_of_fmap. split.
    + intros [(e & -> & He)|(e & -> & He)]; exists e; auto.
    + intros (e & He & [<-|<-]); [left|right]; by exists e.
  - intros s i. by apply id2ix_of_lookup.
  - intros s i Hs%id2ix_of_lookup; [|done]. by eapply lookup_lt_Some.
Qed.

Lemma node_set_of_resolved_witness :
  prepare abc_args abc_frame = Ok (abc_ids, abc_graph) /\
  exists es,
    resolved abc_frame = Ok es /\
    (forall s, s ∈ abc_ids <->
       exists e, e ∈ es /\ (equery e = s \/ etarget e = s)) /\
    StronglySorted (fun x y => String.leb x y = true) abc_ids /\
    NoDup abc_ids /\
    (forall s (i : nat), id2ix_of abc_ids !! s = Some i <-> abc_ids !! i = Some s) /\
    (forall s (i : nat), id2ix_of abc_ids !! s = Some i -> (i < length abc_ids)%nat).
Proof.
  assert (prepare abc_args abc_frame = Ok (abc_ids, abc_graph)) as H
    by (vm_compute; reflexivity).
  split; [exact H|].
  exact (node_set_of_resolved abc_args abc_frame abc_ids abc_graph H).
Defined.

Lemma NoDup_fmap_inj_on {A B} (f : A -> B) (l : list A) x y :
  NoDup (f <$> l) -> x ∈ l -> y ∈ l -> f x = f y -> x = y.
Proof.
  intros Hnd Hx Hy Hf.
  apply list_elem_of_lookup in Hx as [i Hi].
  apply list_elem_of_lookup in Hy as [j Hj].
  assert (i = j) as Hij.
  { apply (NoDup_lookup (f <$> l) i j (f x)); [done|..];
      rewrite list_lookup_fmap.
    - by rewrite Hi.
    - rewrite Hj. simpl. by rewrite Hf. }
  subst j. rewrite Hi in Hj. by injection Hj.
Qed.

Lemma filter_replicate_sentinel m :
  filter (fun j => j <> (-1)%Z) (replicate m (-1)%Z) = [].
Proof.
  induction m as [|m IH]; [done|]. simpl.
  rewrite filter_cons_False by (intros H; by apply H). done.
Qed.

(** C4, as stated, fails: nothing removes a repeated pair, so the same
    neighbour fills two columns of a row. *)
Lemma duplicate_neighbours :
  match prepare abc_args dup_frame with
  | Ok (_, g) => indices g = [[0; 1; 1]; [1; -1; -1]]%Z
  | Raise _ => False
  end /\
  populated [0; 1; 1]%Z = [1; 1]%Z /\
  ~ NoDup (populated [0; 1; 1]%Z).
Proof.
  split; [by vm_compute|]. split; [by vm_compute|].
  intros Hnd. apply NoDup_cons in Hnd as [Hnd _]. apply Hnd. left.
Qed.

(** C4, amended. No deduplication is performed: the populated entries of
    columns 1..K of every row are pairwise distinct when no two resolved
    records of the input share their (query, target) pair. *)
Theorem neighbours_distinct (a : args) (df : frame) (ids : list string) (g : knn)
    (es : list edge) :
  prepare a df = Ok (ids, g) ->
  resolved df = Ok es ->
  NoDup ((fun e => (equery e, etarget e)) <$> es) ->
  forall (i : nat) (r : list Z), indices g !! i = Some r -> NoDup (populated r).
Proof.
  intros Hp Hres Hpairs i r Hr.
  destruct (prepare_inv a df ids g Hp) as (es' & Hres' & -> & Hu & Hcase).
  rewrite Hres in Hres'. injection Hres' as <-.
  destruct Hcase as [(K & HK & Hi & _ & Hrows)|(_ & _ & _ & ->)]; [|done].
  assert (i < length (all_ids_of es))%nat as Hlt.
  { rewrite <- Hi. by eapply lookup_lt_Some. }
  apply lookup_lt_is_Some_2 in Hlt as [q Hq].
  destruct (Hrows i q Hq) as [Hr' _]. rewrite Hr in Hr'. injection Hr' as ->.
  unfold populated, row_of. simpl.
  rewrite filter_app, filter_replicate_sentinel, app_nil_r.
  apply NoDup_filter.
  pose proof (NoDup_all_ids_of es) as Hnd.
  apply NoDup_fmap_2_strong.
  - intros x y Hx Hy Hxy.
    destruct (top_k_resolved a df es K q x Hres Hx) as (_ & Htx & Hqx & Hfx).
    destruct (top_k_resolved a df es K q y Hres Hy) as (_ & Hty & Hqy & Hfy).
    destruct (target_ix_in_range _ x Hnd Htx) as (n & _ & Hn & Hnx & _).
    destruct (target_ix_in_range _ y Hnd Hty) as (m & _ & Hm & Hmy & _).
    assert (n = m) as -> by lia.
    apply (NoDup_fmap_inj_on _ es x y Hpairs);
      [by eapply elem_of_filtered..|].
    f_equal; congruence.
  - unfold top_k. eapply sublist_NoDup; [|apply sublist_take].
    rewrite ranked_perm. unfold in_group, filtered, threshold, drop_self.
    apply NoDup_fmap_1 in Hpairs.
    destruct (fltb _ _); repeat apply NoDup_filter; done.
Qed.

Lemma neighbours_distinct_witness :
  prepare abc_args abc_frame = Ok (abc_ids, abc_graph) /\
  resolved abc_frame = Ok abc_edges /\
  NoDup ((fun e => (equery e, etarget e)) <$> abc_edges) /\
  forall (i : nat) (r : list Z),
    indices abc_graph !! i = Some r -> NoDup (populated r).
Proof.
  assert (prepare abc_args abc_frame = Ok (abc_ids, abc_graph)) as H1
    by (vm_compute; reflexivity).
  assert (resolved abc_frame = Ok abc_edges) as H2 by (vm_compute; reflexivity).
  assert (NoDup ((fun e => (equery e, etarget e)) <$> abc_edges)) as H3
    by (apply (bool_decide_unpack _); vm_compute; exact I).
  split; [exact H1|]. split; [exact H2|]. split; [exact H3|].
  exact (neighbours_distinct abc_args abc_frame abc_ids abc_graph abc_edges
           H1 H2 H3).
Defined.

(** C8, as stated, fails: with no resolvable edge the embedding step is
    called, on a graph without rows; the run ends on an error when that call
    raises, and if the call returned no coordinate the files would be
    written and the run would end normally. *)
Lemma embedding_called_without_nodes :
  resolved unresolvable_frame = Ok [] /\
  main umap_rejects default_args unresolvable_frame
    = Run [FitTransform (UmapCall 30 42 (Knn [] []) 0)] (Raise EmbeddingError) /\
  main umap_returns_nothing default_args unresolvable_frame
    = Run [FitTransform (UmapCall 30 42 (Knn [] []) 0);
           ToCsv "umap_coords.tsv" tab ["id"; "umap_x"; "umap_y"] [];
           SaveFig "umap.png";
           Print "Wrote: umap_coords.tsv and umap.png"]
          (Ok ()).
Proof. by vm_compute. Qed.

(** C8, amended. With no resolvable edge and a valid configuration the node
    set is empty and nothing checks it: a graph without rows is assembled
    and handed to the embedding step, as the first thing the run does to
    the outside; if the embedding step raises, the run ends on that error
    and no file has been written. *)
Theorem no_guard_on_empty_node_set
    (fit_transform : umap_call -> result (list (float * float)))
    (a : args) (df : frame) :
  (-1 <= k a)%Z -> (umap_n_neighbors a <= k a + 1)%Z -> resolved df = Ok [] ->
  prepare a df = Ok ([], Knn [] []) /\
  head (events (main fit_transform a df))
    = Some (FitTransform
              (UmapCall (Z.min (umap_n_neighbors a) (k a + 1)) (seed a)
                 (Knn [] []) 0)) /\
  (forall e,
     fit_transform
       (UmapCall (Z.min (umap_n_neighbors a) (k a + 1)) (seed a) (Knn [] []) 0)
       = Raise e ->
     main fit_transform a df
       = Run [FitTransform
                (UmapCall (Z.min (umap_n_neighbors a) (k a + 1)) (seed a)
                   (Knn [] []) 0)]
             (Raise e)).
Proof.
  intros Hk Hu Hres.
  assert (prepare a df = Ok ([], Knn [] [])) as Hp.
  { unfold prepare. rewrite decide_True by done. rewrite Hres. simpl.
    rewrite all_ids_of_empty, surviving_nil. unfold build_knn, np_full.
    destruct (Z.ltb_spec (k a + 1) 0); [lia|]. done. }
  split; [done|]. unfold main. rewrite Hp. simpl.
  split.
  - destruct (fit_transform _) as [Y|e]; [|done].
    by destruct (decide (length Y = 0%nat)).
  - by intros e ->.
Qed.

Lemma no_guard_on_empty_node_set_witness :
  (-1 <= k default_args)%Z /\
  (umap_n_neighbors default_args <= k default_args + 1)%Z /\
  resolved unresolvable_frame = Ok [] /\
  prepare default_args unresolvable_frame = Ok ([], Knn [] []) /\
  head (events (main umap_rejects default_args unresolvable_frame))
    = Some (FitTransform
              (UmapCall (Z.min (umap_n_neighbors default_args)
                           (k default_args + 1))
                 (seed default_args) (Knn [] []) 0)) /\
  (forall e,
     umap_rejects
       (UmapCall (Z.min (umap_n_neighbors default_args) (k default_args + 1))
          (seed default_args) (Knn [] []) 0)
       = Raise e ->
     main umap_rejects default_args unresolvable_frame
       = Run [FitTransform
                (UmapCall (Z.min (umap_n_neighbors default_args)
                             (k default_args + 1))
                   (seed default_args) (Knn [] []) 0)]
             (Raise e)).
Proof.
  assert (-1 <= k default_args)%Z as H1 by (simpl; lia).
  assert (umap_n_neighbors default_args <= k default_args + 1)%Z as H2
    by (simpl; lia).
  assert (resolved unresolvable_frame = Ok []) as H3 by (vm_compute; reflexivity).
  split; [exact H1|]. split; [exact H2|]. split; [exact H3|].
  exact (no_guard_on_empty_node_set umap_rejects default_args
           unresolvable_frame H1 H2 H3).
Defined.

(** C9, as stated, fails: the columns of the coordinates file are named
    [id], [umap_x] and [umap_y]. *)
Lemma coords_header_names :
  main abc_fit abc_args abc_frame
    = Run [FitTransform (UmapCall 3 42 abc_graph 3);
           ToCsv "umap_coords.tsv" tab ["id"; "umap_x"; "umap_y"]
             [("A", Fin 1, Fin 2); ("B", Fin 3, Fin 4); ("C", Fin 5, Fin 6)];
           SaveFig "umap.png";
           Print "Wrote: umap_coords.tsv and umap.png"]
          (Ok ()) /\
  ["id"; "umap_x"; "umap_y"] <> ["id"; "x"; "y"].
Proof. split; [by vm_compute|done]. Qed.

(** C9, amended. When the embedding step returns one coordinate per node,
    the run writes [<prefix>_coords.tsv], tab-separated, with the columns
    [id], [umap_x] and [umap_y] and one row per node in node-index order:
    the identifiers of the rows are the sorted node list, each with the
    coordinate of its index. *)
Theorem coords_file_contents
    (fit_transform : umap_call -> result (list (float * float)))
    (a : args) (df : frame) (ids : list string) (g : knn)
    (Y : list (float * float)) :
  prepare a df = Ok (ids, g) ->
  fit_transform
    (UmapCall (Z.min (umap_n_neighbors a) (k a + 1)) (seed a) g (length ids))
    = Ok Y ->
  length Y = length ids ->
  exists body,
    main fit_transform a df
      = Run [FitTransform
               (UmapCall (Z.min (umap_n_neighbors a) (k a + 1)) (seed a) g
                  (length ids));
             ToCsv (out_prefix a +:+ "_coords.tsv") tab
               ["id"; "umap_x"; "umap_y"] body;
             SaveFig (out_prefix a +:+ ".png");
             Print ("Wrote: " +:+ (out_prefix a +:+ "_coords.tsv") +:+ " and "
                      +:+ (out_prefix a +:+ ".png"))]
            (Ok ()) /\
    length body = length ids /\
    (fun p => p.1.1) <$> body = ids /\
    (fun p => (p.1.2, p.2)) <$> body = Y /\
    StronglySorted (fun x y => String.leb x y = true) ids /\
    NoDup ids.
Proof.
  intros Hp Hfit Hlen.
  exists (zip_with (fun s y => (s, y.1, y.2)) ids Y).
  split; [|split; [|split; [|split; [|split]]]].
  - unfold main. rewrite Hp. simpl. rewrite Hfit.
    by rewrite decide_True by done.
  - rewrite length_zip_with. lia.
  - clear Hp Hfit. revert Y Hlen.
    induction ids as [|s ids IH]; intros [|y Y] Hlen; try done.
    simpl. f_equal. apply IH. simpl in Hlen. lia.
  - clear Hp Hfit. revert Y Hlen.
    induction ids as [|s ids IH]; intros [|[y1 y2] Y] Hlen; try done.
    simpl. f_equal. apply IH. simpl in Hlen. lia.
  - destruct (prepare_inv a df ids g Hp) as (es & _ & -> & _).
    apply all_ids_of_sorted.
  - destruct (prepare_inv a df ids g Hp) as (es & _ & -> & _).
    apply NoDup_all_ids_of.
Qed.

Lemma coords_file_contents_witness :
  prepare abc_args abc_frame = Ok (abc_ids, abc_graph) /\
  abc_fit
    (UmapCall (Z.min (umap_n_neighbors abc_args) (k abc_args + 1))
       (seed abc_args) abc_graph (length abc_ids))
    = Ok [(Fin 1, Fin 2); (Fin 3, Fin 4); (Fin 5, Fin 6)] /\
  length [(Fin 1, Fin 2); (Fin 3, Fin 4); (Fin 5, Fin 6)] = length abc_ids /\
  exists body,
    main abc_fit abc_args abc_frame
      = Run [FitTransform
               (UmapCall (Z.min (umap_n_neighbors abc_args) (k abc_args + 1))
                  (seed abc_args) abc_graph (length abc_ids));
             ToCsv (out_prefix abc_args +:+ "_coords.tsv") tab
               ["id"; "umap_x"; "umap_y"] body;
             SaveFig (out_prefix abc_args +:+ ".png");
             Print ("Wrote: " +:+ (out_prefix abc_args +:+ "_coords.tsv")
                      +:+ " and " +:+ (out_prefix abc_args +:+ ".png"))]
            (Ok ()) /\
    length body = length abc_ids /\
    (fun p => p.1.1) <$> body = abc_ids /\
    (fun p => (p.1.2, p.2)) <$> body
      = [(Fin 1, Fin 2); (Fin 3, Fin 4); (Fin 5, Fin 6)] /\
    StronglySorted (fun x y => String.leb x y = true) abc_ids /\
    NoDup abc_ids.
Proof.
  assert (prepare abc_args abc_frame = Ok (abc_ids, abc_graph)) as H1
    by (vm_compute; reflexivity).
  assert (abc_fit
    (UmapCall (Z.min (umap_n_neighbors abc_args) (k abc_args + 1))
       (seed abc_args) abc_graph (length abc_ids))
    = Ok [(Fin 1, Fin 2); (Fin 3, Fin 4); (Fin 5, Fin 6)]) as H2
    by reflexivity.
  assert (length [(Fin 1, Fin 2); (Fin 3, Fin 4); (Fin 5, Fin 6)]
          = length abc_ids) as H3 by reflexivity.
  split; [exact H1|]. split; [exact H2|]. split; [exact H3|].
  exact (coords_file_contents abc_fit abc_args abc_frame abc_ids abc_graph _
           H1 H2 H3).
Defined.

(** * Further properties of [main] *)

(** ** Where the run stops before the embedding *)

Lemma build_knn_no_columns id2ix (n : nat) es :
  build_knn id2ix (S n) (-1) es = Raise IndexError.
Proof. done. Qed.

Lemma build_knn_negative id2ix (N : nat) (K : Z) es :
  (K + 1 < 0)%Z -> build_knn id2ix N K es = Raise ValueError.
Proof.
  intros H. unfold build_knn, np_full.
  by destruct (Z.ltb_spec (K + 1) 0); [|lia].
Qed.

(** The five ways lines 30-108 can end. *)
Lemma prepare_outcome a df :
  ((k a + 1 < umap_n_neighbors a)%Z /\ prepare a df = Raise AssertionError) \/
  ((umap_n_neighbors a <= k a + 1)%Z /\ (ncols df < 6)%nat /\
     prepare a df = Raise ValueError) \/
  ((umap_n_neighbors a <= k a + 1)%Z /\ (6 <= ncols df)%nat /\
     (k a + 1 < 0)%Z /\ prepare a df = Raise ValueError) \/
  ((umap_n_neighbors a <= k a + 1)%Z /\ (6 <= ncols df)%nat /\
     k a = (-1)%Z /\ (exists es e, resolved df = Ok es /\ e ∈ es) /\
     prepare a df = Raise IndexError) \/
  ((umap_n_neighbors a <= k a + 1)%Z /\ (6 <= ncols df)%nat /\
     ((0 <= k a)%Z \/ (k a = (-1)%Z /\ resolved df = Ok [])) /\
     exists ids g, prepare a df = Ok (ids, g)).
Proof.
  destruct (decide (umap_n_neighbors a <= k a + 1)%Z) as [Hu|Hu].
  2:{ left. split; [lia|]. unfold prepare. by rewrite decide_False. }
  right. destruct (decide (6 <= ncols df)%nat) as [Hn|Hn].
  2:{ left. split; [done|]. split; [lia|]. unfold prepare, resolved.
      rewrite decide_True by done.
      by rewrite similarity_too_narrow by lia. }
  right. destruct (resolved_ok df Hn) as [es Hres].
  destruct (decide (0 <= k a)%Z) as [Hk|Hk].
  { do 2 right. split; [done|]. split; [done|]. split; [by left|].
    destruct (prepare_ok a df es (Z.to_nat (k a))) as (g & Hg & _);
      [lia|done..|]. by eexists _, _. }
  destruct (decide (k a + 1 < 0)%Z) as [Hneg|Hneg].
  { left. split; [done|]. split; [done|]. split; [done|].
    unfold prepare. rewrite decide_True by done. rewrite Hres. simpl.
    by rewrite build_knn_negative. }
  right. assert (k a = (-1)%Z) as Hm by lia.
  destruct es as [|e es].
  - right. split; [done|]. split; [done|]. split; [by right|].
    exists [], (Knn [] []). unfold prepare.
    rewrite decide_True by done. rewrite Hres. simpl.
    by rewrite all_ids_of_empty, surviving_nil, Hm.
  - left. split; [done|]. split; [done|]. split; [done|]. split.
    { exists (e :: es), e. split; [done|]. left. }
    unfold prepare. rewrite decide_True by done. rewrite Hres. simpl.
    destruct (all_ids_of (e :: es)) as [|s ids] eqn:Hids.
    { by apply all_ids_of_nil in Hids. }
    simpl. by rewrite Hm.
Qed.

(** X1. How line 34 and lines 56-108 can end, on a file that has loaded
    and whose identifiers are all strings (a failure of [read_csv], and the
    [TypeError] of [sorted] on an identifier loaded as NaN, are outside the
    frame): on the assertion exactly when [umap_n_neighbors] exceeds
    [k + 1]; on a [ValueError] exactly when the assertion passes and either
    the input has fewer than six columns (no candidate to concatenate) or
    [k + 1] is negative; on an [IndexError] exactly when the assertion
    passes, the input has six columns or more, [k] is [-1] and some record
    resolved; never on a failed lookup. *)
Theorem prepare_errors (a : args) (df : frame) :
  (prepare a df = Raise AssertionError <->
     (k a + 1 < umap_n_neighbors a)%Z) /\
  (prepare a df = Raise ValueError <->
     (umap_n_neighbors a <= k a + 1)%Z /\
     ((ncols df < 6)%nat \/ (k a + 1 < 0)%Z)) /\
  (prepare a df = Raise IndexError <->
     (umap_n_neighbors a <= k a + 1)%Z /\ (6 <= ncols df)%nat /\
     k a = (-1)%Z /\ exists es e, resolved df = Ok es /\ e ∈ es) /\
  prepare a df <> Raise KeyError /\
  prepare a df <> Raise EmbeddingError.
Proof.
  destruct (prepare_outcome a df)
    as [(H1 & Hp)|[(H1 & H2 & Hp)|[(H1 & H2 & H3 & Hp)|
        [(H1 & H2 & H3 & H4 & Hp)|(H1 & H2 & H3 & ids & g & Hp)]]]];
    rewrite Hp.
  - repeat split; try done; try lia; intros; try lia.
    all: destruct H as (? & ?); lia.
  - split; [split; [done|lia]|]. split; [split; [intros _; split; [done|by left]|done]|].
    split; [|done]. split; [done|]. intros (_ & ? & _). lia.
  - split; [split; [done|lia]|].
    split; [split; [intros _; split; [done|by right]|done]|].
    split; [|done]. split; [done|]. intros (_ & _ & ? & _). lia.
  - split; [split; [done|lia]|].
    split; [split; [done|intros (_ & [?|?]); lia]|].
    split; [|done]. split; [done|]. intros _. done.
  - split; [split; [done|lia]|].
    split; [split; [done|]|].
    { intros (_ & [?|?]); [lia|]. destruct H3 as [?|[? _]]; lia. }
    split; [|done]. split; [done|].
    intros (_ & _ & Hm & es & e & Hres & He).
    destruct H3 as [?|[_ Hnil]]; [lia|].
    rewrite Hnil in Hres. injection Hres as <-. by apply elem_of_nil in He.
Qed.

(** ** What a run leaves behind *)

(** X2. Every error that [main] raises itself, or that the embedding step
    raises, comes before the first write (a write that fails is not
    modelled): a run that ends on an error has called the embedding step at
    most once and written nothing; a run that ends normally has called the
    embedding step once, then written the coordinates file, then the figure,
    then printed. *)
Theorem files_only_on_success
    (fit_transform : umap_call -> result (list (float * float)))
    (a : args) (df : frame) :
  (forall e, outcome (main fit_transform a df) = Raise e ->
     (length (events (main fit_transform a df)) <= 1)%nat /\
     Forall (fun ev => writes_file ev = false)
       (events (main fit_transform a df))) /\
  (outcome (main fit_transform a df) = Ok () ->
     exists c path sep header body fig msg,
       events (main fit_transform a df)
         = [FitTransform c; ToCsv path sep header body; SaveFig fig; Print msg] /\
       length body = n_samples c).
Proof.
  unfold main. destruct (prepare a df) as [[ids g]|e0]; simpl.
  2:{ split; [|done]. intros e _. split; [lia|constructor]. }
  destruct (fit_transform _) as [Y|e1]; simpl.
  2:{ split; [|done]. intros e _. split; [lia|by repeat constructor]. }
  destruct (decide (length Y = length ids)) as [Hlen|Hlen]; simpl.
  - split; [done|]. intros _. eexists _, _, _, _, _, _, _. split; [done|].
    simpl. rewrite length_zip_with. lia.
  - split; [|done]. intros e _. split; [lia|by repeat constructor].
Qed.

(** ** The shape of the graph *)

(** A row of the assembled graph, read back: there are resolved edges, a
    width and a node behind it. *)
Lemma prepared_row a df ids g (i : nat) r :
  prepare a df = Ok (ids, g) -> indices g !! i = Some r ->
  exists es (K : nat) q,
    resolved df = Ok es /\ ids = all_ids_of es /\ k a = Z.of_nat K /\
    (umap_n_neighbors a <= k a + 1)%Z /\
    ids !! i = Some q /\
    r = row_of K (Z.of_nat i)
          (target_ix (id2ix_of ids) <$> top_k K q (filtered a es)) (-1)%Z /\
    dists g !! i
      = Some (row_of K (Fin 0)
                ((fun e => distance (tm e)) <$> top_k K q (filtered a es)) PInf).
Proof.
  intros Hp Hr.
  destruct (prepare_inv a df ids g Hp) as (es & Hres & -> & Hu & Hcase).
  destruct Hcase as [(K & HK & Hi & _ & Hrows)|(_ & _ & _ & ->)]; [|done].
  assert (i < length (all_ids_of es))%nat as Hlt.
  { rewrite <- Hi. by eapply lookup_lt_Some. }
  apply lookup_lt_is_Some_2 in Hlt as [q Hq].
  destruct (Hrows i q Hq) as [Hr' Hd]. rewrite Hr in Hr'. injection Hr' as ->.
  by exists es, K, q.
Qed.

Lemma prepared_dists_row a df ids g (i : nat) d :
  prepare a df = Ok (ids, g) -> dists g !! i = Some d ->
  exists r, indices g !! i = Some r.
Proof.
  intros Hp Hd.
  destruct (prepare_inv a df ids g Hp) as (es & Hres & -> & Hu & Hcase).
  destruct Hcase as [(K & HK & Hi & Hdl & Hrows)|(_ & _ & _ & ->)]; [|done].
  apply lookup_lt_is_Some_2. rewrite Hi, <- Hdl. by eapply lookup_lt_Some.
Qed.

Lemma lookup_row_of {A} K (self : A) nbrs s (j : nat) x :
  (length nbrs <= K)%nat ->
  row_of K self nbrs s !! S j = Some x ->
  nbrs !! j = Some x \/ ((length nbrs <= j)%nat /\ x = s).
Proof.
  intros Hlen. unfold row_of. simpl. intros Hx.
  destruct (decide (j < length nbrs)%nat) as [Hj|Hj].
  - left. by rewrite lookup_app_l in Hx.
  - right. split; [lia|]. rewrite lookup_app_r in Hx by lia.
    by apply lookup_replicate in Hx as [-> _].
Qed.

Lemma graph_rows_width a df ids g :
  prepare a df = Ok (ids, g) ->
  Forall (fun r => Z.of_nat (length r) = (k a + 1)%Z) (indices g) /\
  Forall (fun d => Z.of_nat (length d) = (k a + 1)%Z) (dists g) /\
  length (indices g) = length ids /\ length (dists g) = length ids.
Proof.
  intros Hp. split; [|split].
  - apply Forall_forall. intros r [i Hr]%list_elem_of_lookup.
    destruct (prepared_row a df ids g i r Hp Hr)
      as (es & K & q & _ & _ & HK & _ & _ & -> & _).
    rewrite length_row_of; [lia|]. rewrite length_fmap. apply length_top_k.
  - apply Forall_forall. intros d [i Hd]%list_elem_of_lookup.
    destruct (prepared_dists_row a df ids g i d Hp Hd) as [r Hr].
    destruct (prepared_row a df ids g i r Hp Hr)
      as (es & K & q & _ & _ & HK & _ & _ & _ & Hd').
    rewrite Hd in Hd'. injection Hd' as ->.
    rewrite length_row_of; [lia|]. rewrite length_fmap. apply length_top_k.
  - destruct (prepare_inv a df ids g Hp) as (es & _ & -> & _ & Hcase).
    by destruct Hcase as [(K & _ & Hi & Hd & _)|(_ & _ & -> & ->)].
Qed.

(** X3. The arrays are dense and of fixed width: every row of the index
    array and of the distance array has [k + 1] columns, and after column 0
    a column of a row holds the sentinel index [-1] exactly when it holds
    the sentinel distance [+inf]. *)
Theorem graph_shape (a : args) (df : frame) (ids : list string) (g : knn) :
  prepare a df = Ok (ids, g) ->
  Forall (fun r => Z.of_nat (length r) = (k a + 1)%Z) (indices g) /\
  Forall (fun d => Z.of_nat (length d) = (k a + 1)%Z) (dists g) /\
  (forall (i j : nat) (r : list Z) (d : list float),
     indices g !! i = Some r -> dists g !! i = Some d -> (1 <= j)%nat ->
     (r !! j = Some (-1)%Z <-> d !! j = Some PInf)).
Proof.
  intros Hp. destruct (graph_rows_width a df ids g Hp) as (Hw & Hwd & _).
  split; [done|]. split; [done|].
  intros i j r d Hr Hd Hj.
  destruct (prepared_row a df ids g i r Hp Hr)
    as (es & K & q & Hres & _ & HK & _ & _ & -> & Hd').
  rewrite Hd in Hd'. injection Hd' as ->.
  destruct j as [|j]; [lia|]. unfold row_of. simpl.
  set (top := top_k K q (filtered a es)).
  assert (length top <= K)%nat as Hlen by apply length_top_k.
  destruct (decide (j < length top)%nat) as [Hlt|Hge].
  - rewrite !lookup_app_l by (by rewrite length_fmap).
    rewrite !list_lookup_fmap.
    destruct (top !! j) as [e|] eqn:He; [|done]. simpl.
    assert (isna (tm e) = false) as Hna.
    { apply list_elem_of_lookup_2 in He.
      by destruct (top_k_resolved a df es K q e Hres He) as [? _]. }
    destruct (distance_unit (tm e) Hna) as (x & -> & _).
    unfold target_ix. split; [intros [= H]; lia|done].
  - rewrite !lookup_app_r by (rewrite length_fmap; lia).
    rewrite !length_fmap.
    destruct (decide (j - length top < K - length top)%nat) as [Hin|Hout].
    + by rewrite !lookup_replicate_2.
    + by rewrite !lookup_ge_None_2 by (rewrite length_replicate; lia).
Qed.

Lemma graph_shape_witness :
  prepare abc_args abc_frame = Ok (abc_ids, abc_graph) /\
  Forall (fun r => Z.of_nat (length r) = (k abc_args + 1)%Z) (indices abc_graph) /\
  Forall (fun d => Z.of_nat (length d) = (k abc_args + 1)%Z) (dists abc_graph) /\
  (forall (i j : nat) (r : list Z) (d : list float),
     indices abc_graph !! i = Some r -> dists abc_graph !! i = Some d ->
     (1 <= j)%nat ->
     (r !! j = Some (-1)%Z <-> d !! j = Some PInf)).
Proof.
  assert (prepare abc_args abc_frame = Ok (abc_ids, abc_graph)) as H
    by (vm_compute; reflexivity).
  split; [exact H|].
  exact (graph_shape abc_args abc_frame abc_ids abc_graph H).
Defined.

(** X4. What the embedding step is handed: the neighbour count asked for on
    the command line, unchanged and never more than the number of columns
    of the graph, the seed, and as many samples as the graph has rows. *)
Theorem embedding_call_is_consistent
    (fit_transform : umap_call -> result (list (float * float)))
    (a : args) (df : frame) (c : umap_call) :
  FitTransform c ∈ events (main fit_transform a df) ->
  n_neighbors c = umap_n_neighbors a /\
  random_state c = seed a /\
  (n_neighbors c <= k a + 1)%Z /\
  n_samples c = length (indices (precomputed_knn c)) /\
  n_samples c = length (dists (precomputed_knn c)) /\
  Forall (fun r => (n_neighbors c <= Z.of_nat (length r))%Z)
    (indices (precomputed_knn c)).
Proof.
  unfold main. destruct (prepare a df) as [[ids g]|e0] eqn:Hp; simpl.
  2:{ by intros ?%elem_of_nil. }
  set (call := UmapCall _ _ _ _).
  intros Hc. assert (c = call) as ->.
  { destruct (fit_transform call) as [Y|e1]; simpl in Hc;
      [destruct (decide (length Y = length ids)); simpl in Hc|];
      repeat (apply elem_of_cons in Hc as [Hc|Hc]; [by simplify_eq|]);
      by apply elem_of_nil in Hc. }
  destruct (prepare_inv a df ids g Hp) as (es & _ & _ & Hu & _).
  destruct (graph_rows_width a df ids g Hp) as (Hw & _ & Hn & Hm).
  simpl. split; [lia|]. split; [done|]. split; [lia|].
  split; [done|]. split; [done|].
  eapply Forall_impl; [exact Hw|]. simpl. intros r Hr. lia.
Qed.

Lemma embedding_call_is_consistent_witness :
  FitTransform (UmapCall 3 42 abc_graph 3)
    ∈ events (main abc_fit abc_args abc_frame) /\
  n_neighbors (UmapCall 3 42 abc_graph 3) = umap_n_neighbors abc_args /\
  random_state (UmapCall 3 42 abc_graph 3) = seed abc_args /\
  (n_neighbors (UmapCall 3 42 abc_graph 3) <= k abc_args + 1)%Z /\
  n_samples (UmapCall 3 42 abc_graph 3)
    = length (indices (precomputed_knn (UmapCall 3 42 abc_graph 3))) /\
  n_samples (UmapCall 3 42 abc_graph 3)
    = length (dists (precomputed_knn (UmapCall 3 42 abc_graph 3))) /\
  Forall (fun r =>
            (n_neighbors (UmapCall 3 42 abc_graph 3) <= Z.of_nat (length r))%Z)
    (indices (precomputed_knn (UmapCall 3 42 abc_graph 3))).
Proof.
  assert (events (main abc_fit abc_args abc_frame)
          = [FitTransform (UmapCall 3 42 abc_graph 3);
             ToCsv "umap_coords.tsv" tab ["id"; "umap_x"; "umap_y"]
               [("A", Fin 1, Fin 2); ("B", Fin 3, Fin 4); ("C", Fin 5, Fin 6)];
             SaveFig "umap.png";
             Print "Wrote: umap_coords.tsv and umap.png"]) as Hev
    by (vm_compute; reflexivity).
  assert (FitTransform (UmapCall 3 42 abc_graph 3)
            ∈ events (main abc_fit abc_args abc_frame)) as H
    by (rewrite Hev; apply list_elem_of_here).
  split; [exact H|].
  exact (embedding_call_is_consistent abc_fit abc_args abc_frame _ H).
Defined.


(** ** Which edges reach a row *)

Lemma elem_of_filtered_inv a es e :
  e ∈ filtered a es ->
  e ∈ es /\ equery e <> etarget e /\
  (fltb (Fin 0) (min_tm a) = true -> fleb (min_tm a) (tm e) = true).
Proof.
  unfold filtered, threshold, drop_self.
  destruct (fltb _ _); intros He.
  - apply list_elem_of_filter in He as [Hm He].
    apply list_elem_of_filter in He as [Hs He]. done.
  - apply list_elem_of_filter in He as [Hs He]. done.
Qed.

Lemma filter_target_ix id2ix (top : list edge) :
  filter (fun j => j <> (-1)%Z) (target_ix id2ix <$> top)
  = target_ix id2ix <$> top.
Proof.
  induction top as [|e top IH]; [done|]. rewrite fmap_cons.
  rewrite filter_cons_True by (unfold target_ix; lia). by rewrite IH.
Qed.

Lemma populated_row_of id2ix K (self : Z) (top : list edge) :
  populated (row_of K self (target_ix id2ix <$> top) (-1)%Z)
  = target_ix id2ix <$> top.
Proof.
  unfold populated, row_of. simpl.
  by rewrite filter_app, filter_replicate_sentinel, app_nil_r, filter_target_ix.
Qed.

(** X5. Top-K truncation: the edges of a query that pass the filters split
    into those kept and those dropped; at most [K] are kept, all of them
    when there are no more than [K]; the populated entries of the row are
    the indices of the targets of the kept edges, in order; and no dropped
    edge is more similar than a kept one. *)
Theorem top_k_truncation (a : args) (df : frame) (K : nat) (es : list edge) :
  k a = Z.of_nat K -> (umap_n_neighbors a <= k a + 1)%Z -> resolved df = Ok es ->
  exists g,
    prepare a df = Ok (all_ids_of es, g) /\
    forall (i : nat) (q : string), all_ids_of es !! i = Some q ->
      exists (kept dropped : list edge) (r : list Z),
        kept ++ dropped ≡ₚ in_group q (filtered a es) /\
        length kept = Nat.min K (length (in_group q (filtered a es))) /\
        indices g !! i = Some r /\
        populated r = target_ix (id2ix_of (all_ids_of es)) <$> kept /\
        (forall e e', e ∈ kept -> e' ∈ dropped ->
           fleb (tm e') (tm e) = true).
Proof.
  intros HK Hu Hres.
  destruct (prepare_ok a df es K HK Hu Hres) as (g & Hp & _ & _ & Hrows).
  exists g. split; [done|]. intros i q Hq.
  set (rk := ranked q (filtered a es)).
  destruct (Hrows i q Hq) as [Hr _].
  eexists (take K rk), (drop K rk), _.
  split; [by rewrite take_drop; apply ranked_perm|].
  split; [by rewrite length_take, <- (Permutation_length (ranked_perm _ _))|].
  split; [exact Hr|]. split; [apply populated_row_of|].
  intros e e' He He'.
  pose proof (ranked_sorted q (filtered a es)) as Hs.
  fold rk in Hs. rewrite <- (take_drop K rk) in Hs.
  pose proof (StronglySorted_app_1_elem_of _ _ _ e e' Hs He He') as Hle.
  simpl in Hle. unfold rank_le in Hle.
  assert (forall x, x ∈ rk -> isna (tm x) = false) as Hna.
  { intros x Hx. unfold rk in Hx. rewrite ranked_perm in Hx.
    apply list_elem_of_filter in Hx as [_ Hx%elem_of_filtered].
    by eapply resolved_notna. }
  rewrite tm_desc_notna in Hle; [done|..]; apply Hna.
  - by eapply subseteq_take.
  - by eapply subseteq_drop.
Qed.

Lemma top_k_truncation_witness :
  k abc_args = Z.of_nat 2 /\
  (umap_n_neighbors abc_args <= k abc_args + 1)%Z /\
  resolved abc_frame = Ok abc_edges /\
  exists g,
    prepare abc_args abc_frame = Ok (all_ids_of abc_edges, g) /\
    forall (i : nat) (q : string), all_ids_of abc_edges !! i = Some q ->
      exists (kept dropped : list edge) (r : list Z),
        kept ++ dropped ≡ₚ in_group q (filtered abc_args abc_edges) /\
        length kept
          = Nat.min 2 (length (in_group q (filtered abc_args abc_edges))) /\
        indices g !! i = Some r /\
        populated r = target_ix (id2ix_of (all_ids_of abc_edges)) <$> kept /\
        (forall e e', e ∈ kept -> e' ∈ dropped ->
           fleb (tm e') (tm e) = true).
Proof.
  assert (k abc_args = Z.of_nat 2) as H1 by reflexivity.
  assert (umap_n_neighbors abc_args <= k abc_args + 1)%Z as H2 by (simpl; lia).
  assert (resolved abc_frame = Ok abc_edges) as H3 by (vm_compute; reflexivity).
  split; [exact H1|]. split; [exact H2|]. split; [exact H3|].
  exact (top_k_truncation abc_args abc_frame 2 abc_edges H1 H2 H3).
Defined.

(** A populated entry of a row, read back: the edge behind it. *)
Lemma populated_entry a df ids g (i j : nat) r x :
  prepare a df = Ok (ids, g) -> indices g !! i = Some r ->
  r !! S j = Some x -> x <> (-1)%Z ->
  exists es (K : nat) q e n d,
    resolved df = Ok es /\ ids = all_ids_of es /\ k a = Z.of_nat K /\
    ids !! i = Some q /\
    top_k K q (filtered a es) !! j = Some e /\
    e ∈ filtered a es /\ equery e = q /\
    x = Z.of_nat n /\ ids !! n = Some (etarget e) /\
    dists g !! i = Some d /\ d !! S j = Some (distance (tm e)).
Proof.
  intros Hp Hr Hx Hne.
  destruct (prepared_row a df ids g i r Hp Hr)
    as (es & K & q & Hres & -> & HK & _ & Hq & -> & Hd).
  apply lookup_row_of in Hx as [Hx|[_ ->]]; [|done|].
  2:{ rewrite length_fmap. apply length_top_k. }
  rewrite list_lookup_fmap in Hx.
  destruct (top_k K q (filtered a es) !! j) as [e|] eqn:He; [|done].
  simpl in Hx. injection Hx as <-.
  pose proof (list_elem_of_lookup_2 _ _ _ He) as Hin.
  destruct (top_k_resolved a df es K q e Hres Hin) as (_ & Ht & Heq & Hf).
  destruct (target_ix_in_range _ e (NoDup_all_ids_of es) Ht)
    as (n & _ & Hn & Hix & _).
  eexists es, K, q, e, n, _. do 9 (split; [done|]). split; [exact Hd|].
  unfold row_of. simpl. rewrite lookup_app_l.
  - by rewrite list_lookup_fmap, He.
  - rewrite length_fmap. by eapply lookup_lt_Some.
Qed.

(** X6. The graph invents no edge: a populated entry [x] in column [j >= 1]
    of row [i] stands for a record of the input whose query is node [i],
    whose target is node [x], which is not a self-hit, and the distance in
    the same place of the distance array is [1 - clip(tm, 0, 1)] of that
    record. *)
Theorem neighbours_come_from_records (a : args) (df : frame)
    (ids : list string) (g : knn) (i j : nat) (r : list Z) (x : Z) :
  prepare a df = Ok (ids, g) -> indices g !! i = Some r ->
  (1 <= j)%nat -> r !! j = Some x -> x <> (-1)%Z ->
  exists es e d,
    resolved df = Ok es /\ e ∈ es /\ erow e ∈ rows df /\
    ids !! i = Some (equery e) /\
    ids !! Z.to_nat x = Some (etarget e) /\
    equery e <> etarget e /\
    dists g !! i = Some d /\ d !! j = Some (distance (tm e)).
Proof.
  intros Hp Hr Hj Hx Hne. destruct j as [|j]; [lia|].
  destruct (populated_entry a df ids g i j r x Hp Hr Hx Hne)
    as (es & K & q & e & n & d & Hres & -> & _ & Hq & _ & Hf & Heq & -> & Hn
        & Hd & Hdj).
  destruct (elem_of_filtered_inv a es e Hf) as (He & Hself & _).
  exists es, e, d. split; [done|]. split; [done|]. split.
  { eapply sublist_subseteq; [by apply resolved_in_file_order|].
    by apply list_elem_of_fmap_2. }
  subst q. rewrite Nat2Z.id. done.
Qed.

Lemma neighbours_come_from_records_witness :
  prepare abc_args abc_frame = Ok (abc_ids, abc_graph) /\
  indices abc_graph !! 0%nat = Some [0; 1; 2]%Z /\
  (1 <= 2)%nat /\ [0; 1; 2]%Z !! 2%nat = Some 2%Z /\ 2%Z <> (-1)%Z /\
  exists es e d,
    resolved abc_frame = Ok es /\ e ∈ es /\ erow e ∈ rows abc_frame /\
    abc_ids !! 0%nat = Some (equery e) /\
    abc_ids !! Z.to_nat 2 = Some (etarget e) /\
    equery e <> etarget e /\
    dists abc_graph !! 0%nat = Some d /\ d !! 2%nat = Some (distance (tm e)).
Proof.
  assert (prepare abc_args abc_frame = Ok (abc_ids, abc_graph)) as H1
    by (vm_compute; reflexivity).
  assert (indices abc_graph !! 0%nat = Some [0; 1; 2]%Z) as H2 by reflexivity.
  assert (1 <= 2)%nat as H3 by lia.
  assert ([0; 1; 2]%Z !! 2%nat = Some 2%Z) as H4 by reflexivity.
  assert (2%Z <> (-1)%Z) as H5 by lia.
  split; [exact H1|]. split; [exact H2|]. split; [exact H3|].
  split; [exact H4|]. split; [exact H5|].
  exact (neighbours_come_from_records abc_args abc_frame abc_ids abc_graph
           0 2 _ 2 H1 H2 H3 H4 H5).
Defined.

(** X7. No node is its own neighbour: after column 0 no entry of row [i]
    is [i]. *)
Theorem no_self_neighbour (a : args) (df : frame) (ids : list string) (g : knn)
    (i j : nat) (r : list Z) :
  prepare a df = Ok (ids, g) -> indices g !! i = Some r -> (1 <= j)%nat ->
  r !! j <> Some (Z.of_nat i).
Proof.
  intros Hp Hr Hj Hx. destruct j as [|j]; [lia|].
  destruct (populated_entry a df ids g i j r _ Hp Hr Hx)
    as (es & K & q & e & n & d & Hres & -> & _ & Hq & _ & Hf & Heq & Hn & Ht
        & _); [lia|].
  destruct (elem_of_filtered_inv a es e Hf) as (_ & Hself & _).
  apply Nat2Z.inj in Hn as <-. congruence.
Qed.

Lemma no_self_neighbour_witness :
  prepare abc_args abc_frame = Ok (abc_ids, abc_graph) /\
  indices abc_graph !! 1%nat = Some [1; 0; -1]%Z /\ (1 <= 1)%nat /\
  [1; 0; -1]%Z !! 1%nat <> Some (Z.of_nat 1).
Proof.
  assert (prepare abc_args abc_frame = Ok (abc_ids, abc_graph)) as H1
    by (vm_compute; reflexivity).
  assert (indices abc_graph !! 1%nat = Some [1; 0; -1]%Z) as H2 by reflexivity.
  assert (1 <= 1)%nat as H3 by lia.
  split; [exact H1|]. split; [exact H2|]. split; [exact H3|].
  exact (no_self_neighbour abc_args abc_frame abc_ids abc_graph 1 1 _ H1 H2 H3).
Defined.

(** X8. The similarity floor is respected: when [min_tm] is positive, every
    populated neighbour after column 0 stands for a record whose similarity
    passed the comparison of line 84, [tm >= min_tm]; the distance stored in
    the same place is the expression of line 105 on that similarity. *)
Theorem floor_respected (a : args) (df : frame) (ids : list string) (g : knn)
    (i j : nat) (r : list Z) (x : Z) :
  prepare a df = Ok (ids, g) -> fltb (Fin 0) (min_tm a) = true ->
  indices g !! i = Some r -> (1 <= j)%nat -> r !! j = Some x ->
  x <> (-1)%Z ->
  exists es e d,
    resolved df = Ok es /\ e ∈ es /\
    ids !! i = Some (equery e) /\
    ids !! Z.to_nat x = Some (etarget e) /\
    fleb (min_tm a) (tm e) = true /\
    dists g !! i = Some d /\ d !! j = Some (distance (tm e)).
Proof.
  intros Hp Hm Hr Hj Hx Hne. destruct j as [|j]; [lia|].
  destruct (populated_entry a df ids g i j r x Hp Hr Hx Hne)
    as (es & K & q & e & n & d & Hres & -> & _ & Hq & _ & Hf & Heq & -> & Hn
        & Hd & Hdj).
  destruct (elem_of_filtered_inv a es e Hf) as (He & _ & Hfloor).
  exists es, e, d. split; [done|]. split; [done|].
  subst q. rewrite Nat2Z.id. split; [done|]. split; [done|].
  split; [by apply Hfloor|]. done.
Qed.

Lemma floor_respected_witness :
  prepare abc_floor_args abc_frame = Ok (abc_ids, abc_floor_graph) /\
  fltb (Fin 0) (min_tm abc_floor_args) = true /\
  indices abc_floor_graph !! 0%nat = Some [0; 1; -1]%Z /\
  (1 <= 1)%nat /\ [0; 1; -1]%Z !! 1%nat = Some 1%Z /\ 1%Z <> (-1)%Z /\
  exists es e d,
    resolved abc_frame = Ok es /\ e ∈ es /\
    abc_ids !! 0%nat = Some (equery e) /\
    abc_ids !! Z.to_nat 1 = Some (etarget e) /\
    fleb (min_tm abc_floor_args) (tm e) = true /\
    dists abc_floor_graph !! 0%nat = Some d /\
    d !! 1%nat = Some (distance (tm e)).
Proof.
  assert (prepare abc_floor_args abc_frame = Ok (abc_ids, abc_floor_graph))
    as H1 by (vm_compute; reflexivity).
  assert (fltb (Fin 0) (min_tm abc_floor_args) = true) as H2 by reflexivity.
  assert (indices abc_floor_graph !! 0%nat = Some [0; 1; -1]%Z) as H3
    by reflexivity.
  assert (1 <= 1)%nat as H4 by lia.
  assert ([0; 1; -1]%Z !! 1%nat = Some 1%Z) as H5 by reflexivity.
  assert (1%Z <> (-1)%Z) as H6 by lia.
  split; [exact H1|]. split; [exact H2|]. split; [exact H3|].
  split; [exact H4|]. split; [exact H5|]. split; [exact H6|].
  exact (floor_respected abc_floor_args abc_frame abc_ids abc_floor_graph
           0 1 _ _ H1 H2 H3 H4 H5 H6).
Defined.

(** X9. A node without an outgoing edge that passes the filters, because it
    only ever appears as a target, or because all its hits are self-hits or
    below the floor, still has a row: its self-loop, then sentinels only. *)
Theorem row_without_edges (a : args) (df : frame) (ids : list string) (g : knn)
    (es : list edge) (i : nat) (q : string) :
  prepare a df = Ok (ids, g) -> resolved df = Ok es ->
  ids !! i = Some q -> q ∉ (equery <$> filtered a es) ->
  indices g !! i
    = Some (Z.of_nat i :: replicate (Z.to_nat (k a)) (-1)%Z) /\
  dists g !! i = Some (Fin 0 :: replicate (Z.to_nat (k a)) PInf).
Proof.
  intros Hp Hres Hq Hnone.
  destruct (prepare_inv a df ids g Hp) as (es' & Hres' & -> & _ & Hcase).
  rewrite Hres in Hres'. injection Hres' as <-.
  destruct Hcase as [(K & HK & _ & _ & Hrows)|(_ & _ & Hnil & _)].
  2:{ by rewrite Hnil in Hq. }
  destruct (Hrows i q Hq) as [Hr Hd]. rewrite Hr, Hd.
  assert (top_k K q (filtered a es) = []) as ->.
  { unfold top_k, ranked. rewrite in_group_nil by done. by destruct K. }
  rewrite HK, Nat2Z.id. unfold row_of. simpl. by rewrite Nat.sub_0_r.
Qed.

Lemma row_without_edges_witness :
  prepare abc_args abc_frame = Ok (abc_ids, abc_graph) /\
  resolved abc_frame = Ok abc_edges /\
  abc_ids !! 2%nat = Some "C" /\
  ("C" ∉ (equery <$> filtered abc_args abc_edges)) /\
  indices abc_graph !! 2%nat
    = Some (Z.of_nat 2 :: replicate (Z.to_nat (k abc_args)) (-1)%Z) /\
  dists abc_graph !! 2%nat
    = Some (Fin 0 :: replicate (Z.to_nat (k abc_args)) PInf).
Proof.
  assert (prepare abc_args abc_frame = Ok (abc_ids, abc_graph)) as H1
    by (vm_compute; reflexivity).
  assert (resolved abc_frame = Ok abc_edges) as H2 by (vm_compute; reflexivity).
  assert (abc_ids !! 2%nat = Some "C") as H3 by reflexivity.
  assert ("C" ∉ (equery <$> filtered abc_args abc_edges)) as H4
    by (apply (bool_decide_unpack _); vm_compute; exact I).
  split; [exact H1|]. split; [exact H2|]. split; [exact H3|]. split; [exact H4|].
  exact (row_without_edges abc_args abc_frame abc_ids abc_graph abc_edges
           2 "C" H1 H2 H3 H4).
Defined.

Lemma filtered_same_floor a a' es :
  min_tm a = min_tm a' -> filtered a es = filtered a' es.
Proof. unfold filtered. by intros ->. Qed.

(** X10. A larger [k] only appends neighbours: for two configurations with
    the same floor and [0 <= k <= k'], the node lists are the same and the
    populated entries of every row under [k] are the first of the populated
    entries of that row under [k']. *)
Theorem larger_k_extends_rows (a a' : args) (df : frame)
    (ids ids' : list string) (g g' : knn) :
  prepare a df = Ok (ids, g) -> prepare a' df = Ok (ids', g') ->
  min_tm a = min_tm a' -> (0 <= k a <= k a')%Z ->
  ids = ids' /\
  forall (i : nat) (r r' : list Z),
    indices g !! i = Some r -> indices g' !! i = Some r' ->
    populated r `prefix_of` populated r'.
Proof.
  intros Hp Hp' Hm Hk.
  destruct (prepare_inv a df ids g Hp) as (es & Hres & Hids & _).
  destruct (prepare_inv a' df ids' g' Hp') as (es' & Hres' & Hids' & _).
  rewrite Hres in Hres'. injection Hres' as <-.
  split; [congruence|]. intros i r r' Hr Hr'.
  destruct (prepared_row a df ids g i r Hp Hr)
    as (es1 & K & q & Hres1 & -> & HK & _ & Hq & -> & _).
  destruct (prepared_row a' df ids' g' i r' Hp' Hr')
    as (es2 & K' & q' & Hres2 & -> & HK' & _ & Hq' & -> & _).
  rewrite Hres in Hres1, Hres2. injection Hres1 as <-. injection Hres2 as <-.
  rewrite Hq in Hq'. injection Hq' as <-.
  rewrite !populated_row_of, <- (filtered_same_floor a a' es Hm).
  unfold top_k.
  replace K with (Nat.min K K') by lia.
  rewrite <- take_take, fmap_take. apply prefix_take.
Qed.

Lemma larger_k_extends_rows_witness :
  prepare abc_one_args abc_frame = Ok (abc_ids, abc_one_graph) /\
  prepare abc_args abc_frame = Ok (abc_ids, abc_graph) /\
  min_tm abc_one_args = min_tm abc_args /\
  (0 <= k abc_one_args <= k abc_args)%Z /\
  abc_ids = abc_ids /\
  forall (i : nat) (r r' : list Z),
    indices abc_one_graph !! i = Some r -> indices abc_graph !! i = Some r' ->
    populated r `prefix_of` populated r'.
Proof.
  assert (prepare abc_one_args abc_frame = Ok (abc_ids, abc_one_graph)) as H1
    by (vm_compute; reflexivity).
  assert (prepare abc_args abc_frame = Ok (abc_ids, abc_graph)) as H2
    by (vm_compute; reflexivity).
  assert (min_tm abc_one_args = min_tm abc_args) as H3 by reflexivity.
  assert (0 <= k abc_one_args <= k abc_args)%Z as H4 by (simpl; lia).
  split; [exact H1|]. split; [exact H2|]. split; [exact H3|]. split; [exact H4|].
  exact (larger_k_extends_rows abc_one_args abc_args abc_frame _ _ _ _
           H1 H2 H3 H4).
Defined.

(** ** The loader's column names (lines 41-49) *)

Lemma extra_name_inj (i j : nat) :
  "extra_" +:+ pretty i = "extra_" +:+ pretty j -> i = j.
Proof. simpl. intros [= H]. by apply (inj pretty). Qed.

Lemma NoDup_base_cols_pref : NoDup base_cols_pref.
Proof. by apply (bool_decide_unpack _); vm_compute. Qed.

Lemma NoDup_base_cols_fbk : NoDup base_cols_fbk.
Proof. by apply (bool_decide_unpack _); vm_compute. Qed.

(** X11. The names given to the columns: as many as the frame has columns
    (so that the assignment of lines 46-49 cannot fail on a length
    mismatch), pairwise distinct, and none of them is [tm], the name of the
    column added on line 73. *)
Theorem columns_named (df : frame) :
  length (columns df) = ncols df /\
  NoDup (columns df) /\
  "tm" ∉ columns df.
Proof.
  unfold columns.
  destruct (decide (length base_cols_pref <= ncols df)%nat) as [Hn|Hn].
  - split; [|split].
    + rewrite length_app, length_fmap, length_seq. lia.
    + apply NoDup_app. split; [apply NoDup_base_cols_pref|]. split.
      * intros x Hx [i [-> _]]%list_elem_of_fmap.
        simpl in Hx.
        repeat (apply elem_of_cons in Hx as [Hx|Hx]; [discriminate Hx|]).
        by apply elem_of_nil in Hx.
      * apply NoDup_fmap_2_strong; [|apply NoDup_seq].
        intros i j _ _. apply extra_name_inj.
    + intros [Hx|Hx]%elem_of_app.
      * repeat (apply elem_of_cons in Hx as [Hx|Hx]; [discriminate Hx|]).
        by apply elem_of_nil in Hx.
      * apply list_elem_of_fmap in Hx as [i [Hx _]]. simpl in Hx.
        discriminate Hx.
  - split; [|split].
    + rewrite length_take. simpl in *. lia.
    + eapply sublist_NoDup; [apply NoDup_base_cols_fbk|apply sublist_take].
    + intros Hx%subseteq_take.
      repeat (apply elem_of_cons in Hx as [Hx|Hx]; [discriminate Hx|]).
      by apply elem_of_nil in Hx.
Qed.

(** ** The fallback of the similarity (lines 60-74) *)

Lemma nanmax_isna x y : isna (nanmax x y) = isna x && isna y.
Proof. destruct x, y; simpl; try done; by destruct (Qle_bool _ _). Qed.

Lemma nanmax_either x y : nanmax x y = x \/ nanmax x y = y.
Proof. destruct x, y; simpl; auto; destruct (Qle_bool _ _); auto. Qed.

Lemma nanmax_upper_l x y : isna x = false -> fleb x (nanmax x y) = true.
Proof.
  intros Hx. destruct (isna y) eqn:Hy.
  - destruct y; try done. destruct x; try done; by apply fleb_refl.
  - assert (nanmax x y = if fleb x y then y else x) as ->
      by by destruct x, y.
    destruct (fleb x y) eqn:Hxy; [done|by apply fleb_refl].
Qed.

Lemma nanmax_upper_r x y : isna y = false -> fleb y (nanmax x y) = true.
Proof.
  intros Hy. destruct (isna x) eqn:Hx.
  - destruct x; try done. simpl. by apply fleb_refl.
  - assert (nanmax x y = if fleb x y then y else x) as ->
      by by destruct x, y.
    destruct (fleb x y) eqn:Hxy; [by apply fleb_refl|].
    by destruct (fleb_total x y Hx Hy) as [H|H]; [rewrite H in Hxy|].
Qed.

Lemma where_unit_isna ev :
  isna (where_unit ev) = negb (fleb (Fin 0) ev && fleb ev (Fin 1)).
Proof.
  unfold where_unit. destruct (fleb (Fin 0) ev) eqn:H0; [|done].
  destruct (fleb ev (Fin 1)) eqn:H1; [|done]. simpl.
  by apply fleb_notna in H1 as [? _].
Qed.

Lemma where_unit_keeps ev :
  fleb (Fin 0) ev && fleb ev (Fin 1) = true -> where_unit ev = ev.
Proof. unfold where_unit. by intros ->. Qed.

Lemma fdiv100_isna x : isna (fdiv100 x) = isna x.
Proof. by destruct x. Qed.

Lemma resolved_fallback df :
  (6 <= ncols df < 8)%nat ->
  resolved df
  = Ok (filter (fun e => isna (tm e) = false)
          ((fun r => Edge r (fallback_tm df r)) <$> rows df)).
Proof.
  intros Hn. unfold resolved, fallback_tm.
  destruct (decide (ncols df = 7%nat)) as [H7|H7].
  - rewrite similarity_basic by done. simpl. rewrite zip_with_Edge_fmap.
    by rewrite has_column_score, bool_decide_eq_true_2 by lia.
  - rewrite similarity_evalue_only by lia. simpl. rewrite zip_with_Edge_fmap.
    by rewrite has_column_score, bool_decide_eq_false_2 by lia.
Qed.

(** X12. The fallback keeps a record exactly when it has something to go
    by, and never clamps: in an input without the alignment-score column, a
    record is retained if and only if its score is a number (the input
    having the score column) or its evalue lies in [0,1]; the similarity of
    a retained record is one of these two values, [score / 100] or
    [evalue], and is at least each of them that is usable. *)
Theorem fallback_keeps_usable (df : frame) (es : list edge) :
  (6 <= ncols df < 8)%nat -> resolved df = Ok es ->
  (forall r : row, r ∈ rows df ->
     ((exists t, Edge r t ∈ es) <->
      (has_column "score" df = true /\ isna (score r) = false) \/
      fleb (Fin 0) (evalue r) && fleb (evalue r) (Fin 1) = true)) /\
  (forall e : edge, e ∈ es ->
     (tm e = evalue (erow e) \/
      (has_column "score" df = true /\ tm e = fdiv100 (score (erow e)))) /\
     (has_column "score" df = true -> isna (score (erow e)) = false ->
        fleb (fdiv100 (score (erow e))) (tm e) = true) /\
     (fleb (Fin 0) (evalue (erow e)) && fleb (evalue (erow e)) (Fin 1) = true ->
        fleb (evalue (erow e)) (tm e) = true)).
Proof.
  intros Hn Hres. rewrite resolved_fallback in Hres by done.
  injection Hres as <-.
  assert (forall r, isna (fallback_tm df r) = false <->
            (has_column "score" df = true /\ isna (score r) = false) \/
            fleb (Fin 0) (evalue r) && fleb (evalue r) (Fin 1) = true)
    as Hkeep.
  { intros r. unfold fallback_tm. destruct (has_column "score" df).
    - rewrite nanmax_isna, fdiv100_isna, where_unit_isna.
      destruct (isna (score r)), (fleb (Fin 0) (evalue r) && _); simpl;
        intuition discriminate.
    - rewrite where_unit_isna.
      destruct (fleb (Fin 0) (evalue r) && _); simpl;
        intuition discriminate. }
  split.
  - intros r Hr. rewrite <- Hkeep. split.
    + intros [t Ht]. apply list_elem_of_filter in Ht as [Hna Ht].
      apply list_elem_of_fmap in Ht as (r' & [= -> ->] & _). done.
    + intros Hna. exists (fallback_tm df r). apply list_elem_of_filter.
      split; [done|]. by apply (list_elem_of_fmap_2 (fun r => Edge r (fallback_tm df r))).
  - intros e He. apply list_elem_of_filter in He as [Hna He].
    apply list_elem_of_fmap in He as (r & -> & _). cbn [tm erow] in *.
    unfold fallback_tm in *. destruct (has_column "score" df).
    + split; [|split].
      * destruct (nanmax_either (fdiv100 (score r)) (where_unit (evalue r)))
          as [H|H]; rewrite H; [by right|].
        left. rewrite H in Hna. apply where_unit_keeps.
        rewrite where_unit_isna in Hna. by apply negb_false_iff in Hna.
      * intros _ Hs. apply nanmax_upper_l. by rewrite fdiv100_isna.
      * intros Hev. rewrite <- (where_unit_keeps _ Hev) at 1.
        apply nanmax_upper_r. rewrite where_unit_isna, Hev. done.
    + assert (fleb (Fin 0) (evalue r) && fleb (evalue r) (Fin 1) = true)
        as Hev.
      { rewrite where_unit_isna in Hna. by apply negb_false_iff in Hna. }
      rewrite (where_unit_keeps _ Hev). split; [by left|]. split; [done|].
      intros _. apply fleb_refl. rewrite <- (where_unit_keeps _ Hev). done.
Qed.

Lemma fallback_keeps_usable_witness :
  (6 <= ncols evalue_frame < 8)%nat /\
  resolved evalue_frame
    = Ok [Edge (mk_row "A" "B" (Fin 0.7) NaN NaN) (Fin 0.7)] /\
  (forall r : row, r ∈ rows evalue_frame ->
     ((exists t, Edge r t ∈ [Edge (mk_row "A" "B" (Fin 0.7) NaN NaN) (Fin 0.7)])
      <->
      (has_column "score" evalue_frame = true /\ isna (score r) = false) \/
      fleb (Fin 0) (evalue r) && fleb (evalue r) (Fin 1) = true)) /\
  (forall e : edge, e ∈ [Edge (mk_row "A" "B" (Fin 0.7) NaN NaN) (Fin 0.7)] ->
     (tm e = evalue (erow e) \/
      (has_column "score" evalue_frame = true /\
       tm e = fdiv100 (score (erow e)))) /\
     (has_column "score" evalue_frame = true ->
        isna (score (erow e)) = false ->
        fleb (fdiv100 (score (erow e))) (tm e) = true) /\
     (fleb (Fin 0) (evalue (erow e)) && fleb (evalue (erow e)) (Fin 1) = true ->
        fleb (evalue (erow e)) (tm e) = true)).
Proof.
  assert (6 <= ncols evalue_frame < 8)%nat as H1 by (simpl; lia).
  assert (resolved evalue_frame
    = Ok [Edge (mk_row "A" "B" (Fin 0.7) NaN NaN) (Fin 0.7)]) as H2
    by (vm_compute; reflexivity).
  split; [exact H1|]. split; [exact H2|].
  exact (fallback_keeps_usable evalue_frame _ H1 H2).
Defined.

(** ** What the graph depends on *)

Section StableSortMap.
Context {A B : Type} (f : A -> B) (le : A -> A -> bool) (le' : B -> B -> bool).
Hypothesis le_f : forall a b, le' (f a) (f b) = le a b.

Lemma insert_sorted_fmap x l :
  f <$> insert_sorted le x l = insert_sorted le' (f x) (f <$> l).
Proof.
  induction l as [|y l IH]; [done|]. rewrite fmap_cons. simpl. rewrite le_f.
  destruct (le x y); [done|]. by rewrite fmap_cons, IH.
Qed.

Lemma stable_sort_fmap l :
  f <$> stable_sort le l = stable_sort le' (f <$> l).
Proof.
  induction l as [|x l IH]; [done|]. rewrite fmap_cons. simpl.
  by rewrite insert_sorted_fmap, IH.
Qed.
End StableSortMap.

Lemma filter_fmap_agree {A B} (f : A -> B) (P : A -> Prop) (Q : B -> Prop)
    `{!forall x, Decision (P x)} `{!forall y, Decision (Q y)} (l : list A) :
  (forall x, P x <-> Q (f x)) ->
  f <$> filter P l = filter Q (f <$> l).
Proof.
  intros HPQ. induction l as [|x l IH]; [done|]. rewrite fmap_cons.
  destruct (decide (P x)) as [Hx|Hx].
  - rewrite (filter_cons_True P) by done.
    rewrite (filter_cons_True Q) by by apply HPQ.
    by rewrite fmap_cons, IH.
  - rewrite (filter_cons_False P) by done.
    rewrite (filter_cons_False Q) by by rewrite <- HPQ.
    done.
Qed.

(** The edges of a query that pass the filters, as (target, tm) pairs, are
    a function of the keys of the resolved edges. *)
Lemma group_pairs_of_keys a q es :
  (fun e => (etarget e, tm e)) <$> in_group q (filtered a es)
  = (fun key : string * string * float => (key.1.2, key.2))
      <$> filter (fun key : string * string * float => key.1.1 = q)
            (filter (fun key : string * string * float =>
                       (fltb (Fin 0) (min_tm a) = true ->
                        fleb (min_tm a) key.2 = true) /\ key.1.1 <> key.1.2)
               (edge_key <$> es)).
Proof.
  assert (filtered a es
          = filter (fun e => (fltb (Fin 0) (min_tm a) = true ->
                              fleb (min_tm a) (tm e) = true) /\
                             equery e <> etarget e) es) as ->.
  { unfold filtered, threshold, drop_self.
    destruct (fltb (Fin 0) (min_tm a)).
    - rewrite list_filter_filter. apply list_filter_iff. intros e. tauto.
    - apply list_filter_iff. intros e. split; [by split|by intros [_ ?]]. }
  unfold in_group.
  rewrite <- (filter_fmap_agree edge_key
    (fun e => (fltb (Fin 0) (min_tm a) = true ->
               fleb (min_tm a) (tm e) = true) /\ equery e <> etarget e)
    (fun key : string * string * float =>
       (fltb (Fin 0) (min_tm a) = true -> fleb (min_tm a) key.2 = true) /\
       key.1.1 <> key.1.2)) by done.
  rewrite <- (filter_fmap_agree edge_key (fun e => equery e = q)
    (fun key : string * string * float => key.1.1 = q)) by done.
  by rewrite <- list_fmap_compose.
Qed.

Lemma top_k_pairs K q es :
  (fun e => (etarget e, tm e)) <$> top_k K q es
  = take K (stable_sort (fun p p' : string * float => tm_desc p.2 p'.2)
              ((fun e => (etarget e, tm e)) <$> in_group q es)).
Proof.
  unfold top_k, ranked. rewrite fmap_take. f_equal.
  by apply stable_sort_fmap.
Qed.

Lemma rows_are_determined ids K f f' g g' :
  rows_are ids K f g -> rows_are ids K f' g' ->
  (forall q, (fun e => (etarget e, tm e)) <$> f q
             = (fun e => (etarget e, tm e)) <$> f' q) ->
  g = g'.
Proof.
  intros (Hi & Hd & Hrows) (Hi' & Hd' & Hrows') Hsame.
  assert (forall q,
    target_ix (id2ix_of ids) <$> f q = target_ix (id2ix_of ids) <$> f' q)
    as Hix.
  { intros q.
    change (target_ix (id2ix_of ids))
      with ((fun p : string * float =>
               Z.of_nat (default 0%nat (id2ix_of ids !! p.1)))
            ∘ (fun e => (etarget e, tm e))).
    by rewrite !list_fmap_compose, Hsame. }
  assert (forall q,
    (fun e => distance (tm e)) <$> f q = (fun e => distance (tm e)) <$> f' q)
    as Hds.
  { intros q.
    change (fun e => distance (tm e))
      with ((fun p : string * float => distance p.2)
            ∘ (fun e => (etarget e, tm e))).
    by rewrite !list_fmap_compose, Hsame. }
  destruct g as [ind dst], g' as [ind' dst']. simpl in *. f_equal.
  - apply list_eq. intros i.
    destruct (ids !! i) as [q|] eqn:Hq.
    + destruct (Hrows i q Hq) as [-> _], (Hrows' i q Hq) as [-> _].
      by rewrite Hix.
    + apply lookup_ge_None_1 in Hq.
      by rewrite !lookup_ge_None_2 by lia.
  - apply list_eq. intros i.
    destruct (ids !! i) as [q|] eqn:Hq.
    + destruct (Hrows i q Hq) as [_ ->], (Hrows' i q Hq) as [_ ->].
      by rewrite Hds.
    + apply lookup_ge_None_1 in Hq.
      by rewrite !lookup_ge_None_2 by lia.
Qed.

(** Two inputs with the same nodes and, query by query, the same filtered
    (target, tm) pairs in the same order are prepared alike. *)
Lemma prepare_determined a df df' es es' :
  resolved df = Ok es -> resolved df' = Ok es' ->
  all_ids_of es = all_ids_of es' ->
  (forall q,
     (fun e => (etarget e, tm e)) <$> in_group q (filtered a es)
     = (fun e => (etarget e, tm e)) <$> in_group q (filtered a es')) ->
  prepare a df = prepare a df'.
Proof.
  intros Hres Hres' Hids Hq.
  destruct (decide (umap_n_neighbors a <= k a + 1)%Z) as [Hu|Hu].
  2:{ unfold prepare. by rewrite !decide_False. }
  destruct (decide (0 <= k a)%Z) as [Hk|Hk].
  - destruct (prepare_ok a df es (Z.to_nat (k a))) as (g & Hp & Hg);
      [lia|done..|].
    destruct (prepare_ok a df' es' (Z.to_nat (k a))) as (g' & Hp' & Hg');
      [lia|done..|].
    rewrite Hp, Hp', <- Hids. do 2 f_equal.
    rewrite <- Hids in Hg'.
    eapply rows_are_determined; [exact Hg|exact Hg'|].
    intros q. simpl. by rewrite !top_k_pairs, Hq.
  - unfold prepare. rewrite !decide_True by done. rewrite Hres, Hres'. simpl.
    rewrite <- Hids.
    destruct (decide (k a + 1 < 0)%Z) as [Hneg|Hneg].
    { by rewrite !build_knn_negative. }
    assert (k a = (-1)%Z) as -> by lia.
    destruct (all_ids_of es) as [|s ids] eqn:Hnil; [|done].
    symmetry in Hids. apply all_ids_of_nil in Hnil as ->.
    apply all_ids_of_nil in Hids as ->. done.
Qed.

Lemma has_column_ncols c df df' :
  ncols df = ncols df' -> has_column c df = has_column c df'.
Proof. intros H. unfold has_column, columns. by rewrite H. Qed.

Lemma row_tm_ncols df df' r :
  ncols df = ncols df' -> row_tm df r = row_tm df' r.
Proof.
  intros H. unfold row_tm, fallback_tm.
  by rewrite !(has_column_ncols _ df df' H).
Qed.

(** The similarity is computed a record at a time. *)
Lemma resolved_rowwise df :
  (6 <= ncols df)%nat ->
  resolved df
  = Ok (filter (fun e => isna (tm e) = false)
          ((fun r => Edge r (row_tm df r)) <$> rows df)).
Proof.
  intros Hn. destruct (decide (8 <= ncols df)%nat) as [H8|H8].
  - unfold resolved. rewrite similarity_extended by done. simpl.
    rewrite zip_with_Edge_fmap. do 2 f_equal. apply list_fmap_ext.
    intros i r _. unfold row_tm.
    by rewrite has_column_alntmscore, bool_decide_eq_true_2.
  - rewrite resolved_fallback by lia. do 2 f_equal. apply list_fmap_ext.
    intros i r _. unfold row_tm.
    by rewrite has_column_alntmscore, bool_decide_eq_false_2.
Qed.

Lemma prepare_too_narrow a df df' :
  (ncols df < 6)%nat -> ncols df = ncols df' -> prepare a df = prepare a df'.
Proof.
  intros Hn Heq. unfold prepare, resolved.
  by rewrite !similarity_too_narrow by lia.
Qed.

Lemma main_of_prepare fit a df df' :
  prepare a df = prepare a df' -> main fit a df = main fit a df'.
Proof. intros H. unfold main. by rewrite H. Qed.

Lemma all_ids_of_keys es es' :
  edge_key <$> es = edge_key <$> es' -> all_ids_of es = all_ids_of es'.
Proof.
  intros H. unfold all_ids_of.
  change equery with ((fun key : string * string * float => key.1.1) ∘ edge_key).
  change etarget with ((fun key : string * string * float => key.1.2) ∘ edge_key).
  by rewrite !list_fmap_compose, H.
Qed.

Lemma same_used_keys df df' :
  ncols df = ncols df' ->
  Forall2 (same_used df) (rows df) (rows df') ->
  edge_key <$> filter (fun e => isna (tm e) = false)
                 ((fun r => Edge r (row_tm df r)) <$> rows df)
  = edge_key <$> filter (fun e => isna (tm e) = false)
                   ((fun r => Edge r (row_tm df' r)) <$> rows df').
Proof.
  intros Hn Hrows.
  induction Hrows as [|r r' rs rs' (Hq & Ht & Hnum) _ IH]; [done|].
  assert (row_tm df r = row_tm df' r') as Htm.
  { rewrite <- (row_tm_ncols df df' r' Hn). unfold row_tm, fallback_tm.
    destruct (has_column "alntmscore" df); [done|].
    destruct Hnum as [-> Hs].
    destruct (has_column "score" df); [|done]. by rewrite Hs. }
  rewrite !fmap_cons.
  destruct (isna (row_tm df r)) eqn:Hna.
  - rewrite !filter_cons_False; [done|simpl..].
    + by rewrite <- Htm, Hna.
    + by rewrite Hna.
  - rewrite !filter_cons_True; [|simpl..].
    + rewrite !fmap_cons, IH. f_equal. unfold edge_key, equery, etarget.
      simpl. by rewrite Hq, Ht, Htm.
    + by rewrite <- Htm.
    + done.
Qed.

(** X13. Cells that are not read change nothing: two inputs with the same
    number of columns whose records agree, one by one, on the two
    identifiers and on the numbers in use (the alignment score when the
    input has that column; otherwise the evalue and, when present, the
    score) give the same run, whatever [alnlen], [qcov], [tcov] and the
    other cells hold. *)
Theorem unread_cells_ignored
    (fit_transform : umap_call -> result (list (float * float)))
    (a : args) (df df' : frame) :
  ncols df = ncols df' ->
  Forall2 (same_used df) (rows df) (rows df') ->
  main fit_transform a df = main fit_transform a df'.
Proof.
  intros Hn Hrows. apply main_of_prepare.
  destruct (decide (6 <= ncols df)%nat) as [H6|H6].
  2:{ apply prepare_too_narrow; [lia|done]. }
  pose proof (same_used_keys df df' Hn Hrows) as Hkeys.
  eapply prepare_determined.
  - by apply resolved_rowwise.
  - apply resolved_rowwise. lia.
  - by apply all_ids_of_keys.
  - intros q. by rewrite !group_pairs_of_keys, Hkeys.
Qed.

Lemma unread_cells_ignored_witness :
  ncols abc_frame = ncols abc_frame_noisy /\
  Forall2 (same_used abc_frame) (rows abc_frame) (rows abc_frame_noisy) /\
  main abc_fit abc_args abc_frame = main abc_fit abc_args abc_frame_noisy.
Proof.
  assert (ncols abc_frame = ncols abc_frame_noisy) as H1 by reflexivity.
  assert (Forall2 (same_used abc_frame) (rows abc_frame)
            (rows abc_frame_noisy)) as H2
    by (repeat (constructor; [by vm_compute|]); constructor).
  split; [exact H1|]. split; [exact H2|].
  exact (unread_cells_ignored abc_fit abc_args abc_frame abc_frame_noisy H1 H2).
Defined.

Lemma in_group_filtered a q es :
  in_group q (filtered a es) = filtered a (in_group q es).
Proof.
  unfold in_group, filtered, threshold, drop_self.
  destruct (fltb (Fin 0) (min_tm a)).
  - rewrite !list_filter_filter. apply list_filter_iff. intros e. tauto.
  - rewrite !list_filter_filter. apply list_filter_iff. intros e. tauto.
Qed.

Lemma in_group_rowwise df q :
  in_group q (filter (fun e => isna (tm e) = false)
                ((fun r => Edge r (row_tm df r)) <$> rows df))
  = filter (fun e => isna (tm e) = false)
      ((fun r => Edge r (row_tm df r))
         <$> filter (fun r => query r = q) (rows df)).
Proof.
  unfold in_group.
  rewrite (filter_fmap_agree (fun r => Edge r (row_tm df r))
             (fun r => query r = q) (fun e => equery e = q)) by done.
  rewrite !list_filter_filter. apply list_filter_iff. intros e. tauto.
Qed.

(** X14. Only the order of the records within a query matters: two inputs
    with the same number of columns and, for every query, the same records
    of that query in the same order give the same run, however the records
    of different queries are interleaved. *)
Theorem interleaving_irrelevant
    (fit_transform : umap_call -> result (list (float * float)))
    (a : args) (df df' : frame) :
  ncols df = ncols df' ->
  (forall q, filter (fun r => query r = q) (rows df)
             = filter (fun r => query r = q) (rows df')) ->
  main fit_transform a df = main fit_transform a df'.
Proof.
  intros Hn Hrows. apply main_of_prepare.
  destruct (decide (6 <= ncols df)%nat) as [H6|H6].
  2:{ apply prepare_too_narrow; [lia|done]. }
  set (es := filter (fun e => isna (tm e) = false)
               ((fun r => Edge r (row_tm df r)) <$> rows df)).
  set (es' := filter (fun e => isna (tm e) = false)
                ((fun r => Edge r (row_tm df' r)) <$> rows df')).
  assert (forall q, in_group q es = in_group q es') as Hgroups.
  { intros q. unfold es, es'. rewrite !in_group_rowwise, Hrows.
    f_equal. apply list_fmap_ext. intros i r _.
    by rewrite (row_tm_ncols df df' r Hn). }
  assert (forall e, e ∈ es <-> e ∈ es') as Hmem.
  { intros e. split; intros He.
    - assert (e ∈ in_group (equery e) es) as Hin
        by by apply list_elem_of_filter.
      rewrite Hgroups in Hin. by apply list_elem_of_filter in Hin as [_ ?].
    - assert (e ∈ in_group (equery e) es') as Hin
        by by apply list_elem_of_filter.
      rewrite <- Hgroups in Hin. by apply list_elem_of_filter in Hin as [_ ?]. }
  apply (prepare_determined a df df' es es').
  - by apply resolved_rowwise.
  - apply resolved_rowwise. lia.
  - unfold all_ids_of. do 2 f_equal. apply set_eq. intros s.
    rewrite !elem_of_union, !elem_of_list_to_set, !list_elem_of_fmap.
    by setoid_rewrite Hmem.
  - intros q. by rewrite !in_group_filtered, Hgroups.
Qed.

Lemma interleaving_irrelevant_witness :
  ncols abc_frame = ncols abc_frame_reordered /\
  (forall q, filter (fun r => query r = q) (rows abc_frame)
             = filter (fun r => query r = q) (rows abc_frame_reordered)) /\
  main abc_fit abc_args abc_frame = main abc_fit abc_args abc_frame_reordered.
Proof.
  assert (ncols abc_frame = ncols abc_frame_reordered) as H1 by reflexivity.
  assert (forall q, filter (fun r => query r = q) (rows abc_frame)
             = filter (fun r => query r = q) (rows abc_frame_reordered)) as H2.
  { intros q. simpl. rewrite !filter_cons, !filter_nil. simpl.
    destruct (decide ("A" = q)) as [<-|?]; [done|].
    by destruct (decide ("B" = q)). }
  split; [exact H1|]. split; [exact H2|].
  exact (interleaving_irrelevant abc_fit abc_args abc_frame
           abc_frame_reordered H1 H2).
Defined.

(** * Properties of [embed_reduce.py] *)

Lemma collect_spec (f : EmbedReduce.h5file) ids vecs :
  Forall (fun m => EmbedReduce.ndim m.2 = 1%nat) f ->
  EmbedReduce.collect f ids vecs
  = EmbedReduce.Done (ids ++ f.*1, vecs ++ (EmbedReduce.elements ∘ snd <$> f)).
Proof.
  intros Hf. revert ids vecs.
  induction Hf as [|[key arr] f Harr _ IH]; intros ids vecs; simpl.
  - by rewrite !app_nil_r.
  - simpl in Harr. rewrite decide_False by (by intros ?).
    rewrite IH. by rewrite <- !app_assoc.
Qed.

Lemma collect_done (f : EmbedReduce.h5file) ids vecs r :
  EmbedReduce.collect f ids vecs = EmbedReduce.Done r ->
  Forall (fun m => EmbedReduce.ndim m.2 = 1%nat) f.
Proof.
  revert ids vecs. induction f as [|[key arr] f IH]; intros ids vecs; simpl.
  - constructor.
  - destruct (decide (EmbedReduce.ndim arr <> 1%nat)) as [|Hd]; [done|].
    intros H. constructor; [|by eapply IH]. simpl.
    by destruct (decide (EmbedReduce.ndim arr = 1%nat)).
Qed.

Lemma load_h5_done f ids X :
  EmbedReduce.load_h5_embeddings f = EmbedReduce.Done (ids, X) ->
  f <> [] /\
  Forall (fun m => EmbedReduce.ndim m.2 = 1%nat) f /\
  (exists d : nat, Forall (fun m => length (EmbedReduce.elements m.2) = d) f) /\
  ids = f.*1 /\
  X = (EmbedReduce.elements ∘ snd <$> f).
Proof.
  unfold EmbedReduce.load_h5_embeddings.
  destruct (EmbedReduce.collect f [] []) as [[ids0 vecs]|e] eqn:Hc; [|done].
  pose proof (collect_done f [] [] _ Hc) as Hdim.
  rewrite collect_spec in Hc by done. simpl in Hc. injection Hc as <- <-.
  unfold EmbedReduce.np_vstack.
  destruct f as [|[key arr] f]; [done|]. simpl.
  destruct (decide (Forall _ _)) as [Hlen|]; [|done].
  intros [= <- <-]. split; [done|]. split; [done|]. split; [|done].
  exists (length (EmbedReduce.elements arr)).
  constructor; [done|]. by apply Forall_fmap in Hlen.
Qed.

Lemma load_h5_accepts f :
  f <> [] ->
  Forall (fun m => EmbedReduce.ndim m.2 = 1%nat) f ->
  (exists d : nat, Forall (fun m => length (EmbedReduce.elements m.2) = d) f) ->
  EmbedReduce.load_h5_embeddings f
  = EmbedReduce.Done (f.*1, EmbedReduce.elements ∘ snd <$> f).
Proof.
  intros Hne Hdim [d Hlen]. unfold EmbedReduce.load_h5_embeddings.
  rewrite collect_spec by done. simpl.
  destruct f as [|[key arr] f]; [done|]. simpl.
  apply Forall_cons in Hlen as [Hd Hlen]. simpl in Hd.
  rewrite decide_True; [done|].
  apply Forall_fmap. eapply Forall_impl; [exact Hlen|].
  simpl. intros m Hm. congruence.
Qed.

(** X15. What [load_h5_embeddings] accepts and returns: it succeeds exactly
    on a file with at least one member, all members one-dimensional and all
    of the same length; it then returns the member names in file order and
    the matrix whose rows are the members in the same order. *)
Theorem load_h5_characterised (f : EmbedReduce.h5file)
    (ids : list string) (X : list (list float)) :
  EmbedReduce.load_h5_embeddings f = EmbedReduce.Done (ids, X) <->
  f <> [] /\
  Forall (fun m => EmbedReduce.ndim m.2 = 1%nat) f /\
  (exists d : nat, Forall (fun m => length (EmbedReduce.elements m.2) = d) f) /\
  ids = f.*1 /\
  X = (EmbedReduce.elements ∘ snd <$> f).
Proof.
  split; [apply load_h5_done|].
  intros (Hne & Hdim & Hlen & -> & ->). by apply load_h5_accepts.
Qed.

Lemma load_h5_rows f ids X :
  EmbedReduce.load_h5_embeddings f = EmbedReduce.Done (ids, X) ->
  length ids = length X.
Proof.
  intros (_ & _ & _ & -> & ->)%load_h5_done. by rewrite !length_fmap.
Qed.

(** The first member that is not one-dimensional stops the load. *)
Lemma collect_stops (f1 f2 : EmbedReduce.h5file) key arr ids vecs :
  Forall (fun m => EmbedReduce.ndim m.2 = 1%nat) f1 ->
  EmbedReduce.ndim arr <> 1%nat ->
  EmbedReduce.collect (f1 ++ (key, arr) :: f2) ids vecs
  = EmbedReduce.Fail (EmbedReduce.NotOneDimensional key).
Proof.
  intros Hf1 Harr. revert ids vecs.
  induction Hf1 as [|[k1 a1] f1 H1 _ IH]; intros ids vecs; simpl.
  - by rewrite decide_True.
  - simpl in H1. rewrite decide_False by (by intros ?). apply IH.
Qed.

(** X16. What makes [load_h5_embeddings] fail: the first member that is not
    one-dimensional, reported by name whatever follows it; otherwise, with
    all members one-dimensional, an empty file or members of different
    lengths, which [np.vstack] refuses. *)
Theorem load_h5_failures (f : EmbedReduce.h5file) :
  (forall f1 f2 key arr,
     f = f1 ++ (key, arr) :: f2 ->
     Forall (fun m => EmbedReduce.ndim m.2 = 1%nat) f1 ->
     EmbedReduce.ndim arr <> 1%nat ->
     EmbedReduce.load_h5_embeddings f
     = EmbedReduce.Fail (EmbedReduce.NotOneDimensional key)) /\
  (Forall (fun m => EmbedReduce.ndim m.2 = 1%nat) f ->
     (f = [] \/
      ~ exists d : nat,
          Forall (fun m => length (EmbedReduce.elements m.2) = d) f) ->
     EmbedReduce.load_h5_embeddings f = EmbedReduce.Fail EmbedReduce.CannotStack).
Proof.
  split.
  - intros f1 f2 key arr -> Hf1 Harr. unfold EmbedReduce.load_h5_embeddings.
    by rewrite collect_stops.
  - intros Hdim Hbad. unfold EmbedReduce.load_h5_embeddings.
    rewrite collect_spec by done. simpl.
    destruct f as [|[key arr] f]; [done|]. simpl.
    destruct Hbad as [|Hbad]; [done|].
    destruct (decide (Forall _ _)) as [Hlen|]; [|done].
    destruct Hbad. exists (length (EmbedReduce.elements arr)).
    constructor; [done|]. by apply Forall_fmap in Hlen.
Qed.

(** X17. The check of lines 96-98 can never fire: whatever the
    collaborators answer, no run ends on the mismatch between the number of
    identifiers and the number of rows, because [load_h5_embeddings] returns
    as many of the one as of the other. *)
Theorem mismatch_never_raised (w : EmbedReduce.world) (a : EmbedReduce.args) :
  EmbedReduce.outcome (EmbedReduce.main w a)
  <> EmbedReduce.Fail EmbedReduce.Mismatch.
Proof.
  unfold EmbedReduce.main.
  destruct (EmbedReduce.resolve_path w a) as [p|]; [|done].
  destruct (EmbedReduce.open_h5 w p) as [f|?]; [|done]. simpl.
  destruct (EmbedReduce.load_h5_embeddings f) as [[ids X]|e] eqn:Hload.
  2:{ simpl. intros [= ->]. unfold EmbedReduce.load_h5_embeddings in Hload.
      destruct (EmbedReduce.collect f [] []) as [[ids vecs]|e] eqn:Hc.
      - unfold EmbedReduce.np_vstack in Hload.
        destruct vecs; [done|]. by destruct (decide (Forall _ _)).
      - injection Hload as ->. clear -Hc. revert Hc.
        generalize (@nil string) (@nil (list float)).
        induction f as [|[key arr] f IH]; intros ids vecs; simpl; [done|].
        destruct (decide (EmbedReduce.ndim arr <> 1%nat)); [done|]. apply IH. }
  simpl.
  rewrite decide_False by (by rewrite (load_h5_rows f ids X Hload); intros ?).
  destruct (EmbedReduce.fit_pca_2d w X _) as [pca|?]; [|done]. simpl.
  unfold EmbedReduce.frame_of.
  destruct (decide (length pca = length ids)); [|done]. simpl.
  destruct (EmbedReduce.to_csv w _ _) as [?|?]; [|done]. simpl.
  destruct (EmbedReduce.fit_umap_2d w X _ _) as [um|?]; [|done]. simpl.
  destruct (decide (length um = length ids)); [|done]. simpl.
  destruct (EmbedReduce.to_csv w _ _) as [?|?]; [|done]. simpl.
  destruct (EmbedReduce.scatter_and_save w pca _ _ _) as [?|?]; [|done]. simpl.
  by destruct (EmbedReduce.scatter_and_save w um _ _ _) as [?|?].
Qed.

(** Closes the goal about the writes of a run whose events are known. *)
Ltac run_ends :=
  split; [by eexists|]; split; [done|];
  let before := fresh "before" in
  intros before ? ? ? ? ?;
  by repeat (destruct before as [|? before]; simplify_eq/=).

(** X18. The order of the writes: whatever the collaborators answer, the
    files a run has written to are the first of the PCA table, the UMAP
    table, the PCA figure and the UMAP figure, in this order and each at
    most once; a run that ends normally has written to all four; and the PCA
    table is written before UMAP is fitted, so that a failure of the UMAP
    fit leaves the PCA table behind. *)
Theorem writes_in_order (w : EmbedReduce.world) (a : EmbedReduce.args) :
  EmbedReduce.written (EmbedReduce.main w a)
    `prefix_of` [EmbedReduce.outprefix a +:+ "_pca.tsv";
                 EmbedReduce.outprefix a +:+ "_umap.tsv";
                 EmbedReduce.outprefix a +:+ "_pca.png";
                 EmbedReduce.outprefix a +:+ "_umap.png"] /\
  (EmbedReduce.outcome (EmbedReduce.main w a) = EmbedReduce.Done () ->
   EmbedReduce.written (EmbedReduce.main w a)
   = [EmbedReduce.outprefix a +:+ "_pca.tsv";
      EmbedReduce.outprefix a +:+ "_umap.tsv";
      EmbedReduce.outprefix a +:+ "_pca.png";
      EmbedReduce.outprefix a +:+ "_umap.png"]) /\
  (forall before after X n d,
     EmbedReduce.events (EmbedReduce.main w a)
     = before ++ EmbedReduce.FitUmap X n d :: after ->
     omap EmbedReduce.written_path before
     = [EmbedReduce.outprefix a +:+ "_pca.tsv"]).
Proof.
  unfold EmbedReduce.main, EmbedReduce.written.
  destruct (EmbedReduce.resolve_path w a) as [p|]; simpl; [|run_ends].
  destruct (EmbedReduce.open_h5 w p) as [f|?]; simpl; [|run_ends].
  destruct (EmbedReduce.load_h5_embeddings f) as [[ids X]|?]; simpl;
    [|run_ends].
  destruct (decide (length ids <> length X)); simpl; [run_ends|].
  destruct (EmbedReduce.fit_pca_2d w X _) as [pca|?]; simpl; [|run_ends].
  unfold EmbedReduce.frame_of.
  destruct (decide (length pca = length ids)); simpl; [|run_ends].
  destruct (EmbedReduce.to_csv w _ _) as [?|?]; simpl; [|run_ends].
  destruct (EmbedReduce.fit_umap_2d w X _ _) as [um|?]; simpl; [|run_ends].
  destruct (decide (length um = length ids)); simpl; [|run_ends].
  destruct (EmbedReduce.to_csv w _ _) as [?|?]; simpl; [|run_ends].
  destruct (EmbedReduce.scatter_and_save w pca _ _ _) as [?|?]; simpl;
    [|run_ends].
  destruct (EmbedReduce.scatter_and_save w um _ _ _) as [?|?]; simpl;
    run_ends.
Qed.

Example embed_reduce_umap_fails :
  EmbedReduce.main umap_fails_world embeds_args
  = EmbedReduce.Run
      [EmbedReduce.Open "embeds.h5";
       EmbedReduce.FitPca [[Fin 1; Fin 2; Fin 3]; [Fin 4; Fin 5; Fin 6]] false;
       EmbedReduce.ToCsv "embeds_pca.tsv" tab ["id"; "umap_x"; "umap_y"]
         [("P1", Fin 0, Fin 1); ("P2", Fin 1, Fin 0)];
       EmbedReduce.FitUmap [[Fin 1; Fin 2; Fin 3]; [Fin 4; Fin 5; Fin 6]] 15
         (Fin 0.1)]
      (EmbedReduce.Fail (EmbedReduce.External "umap")).
Proof. by vm_compute. Qed.

(** * Properties of [tools/expand_taxy.py] *)

Lemma occurrences_app t l1 l2 :
  ExpandTaxy.occurrences t (l1 ++ l2)
  = (ExpandTaxy.occurrences t l1 + ExpandTaxy.occurrences t l2)%nat.
Proof. unfold ExpandTaxy.occurrences. by rewrite filter_app, length_app. Qed.

Lemma occurrences_cons t p l :
  ExpandTaxy.occurrences t (p :: l)
  = ((if decide (p.2 = t) then 1 else 0) + ExpandTaxy.occurrences t l)%nat.
Proof.
  unfold ExpandTaxy.occurrences. rewrite filter_cons.
  by destruct (decide (p.2 = t)).
Qed.

Lemma occurrences_snoc t l p :
  ExpandTaxy.occurrences t (l ++ [p])
  = (ExpandTaxy.occurrences t l + (if decide (p.2 = t) then 1 else 0))%nat.
Proof.
  rewrite occurrences_app, occurrences_cons.
  change (ExpandTaxy.occurrences t []) with 0%nat. lia.
Qed.

Lemma count_types_from (l : list (string * string)) (m : gmap string nat) t :
  foldl (fun counts p =>
           <[p.2 := (default 0%nat (counts !! p.2) + 1)%nat]> counts) m l !! t
  = if decide (ExpandTaxy.occurrences t l = 0%nat) then m !! t
    else Some (default 0%nat (m !! t) + ExpandTaxy.occurrences t l)%nat.
Proof.
  revert m. induction l as [|p l IH]; intros m; [done|]. simpl.
  rewrite IH, occurrences_cons.
  destruct (decide (p.2 = t)) as [->|Hne].
  - rewrite lookup_insert_eq. simpl.
    destruct (decide (ExpandTaxy.occurrences t l = 0%nat)) as [->|?];
      f_equal; lia.
  - rewrite lookup_insert_ne by done. done.
Qed.

Lemma count_types_lookup parsed t :
  ExpandTaxy.count_types parsed !! t
  = if decide (ExpandTaxy.occurrences t parsed = 0%nat) then None
    else Some (ExpandTaxy.occurrences t parsed).
Proof.
  unfold ExpandTaxy.count_types. rewrite count_types_from, lookup_empty.
  by destruct (decide _).
Qed.

Lemma expand_loop_spec (parsed : list (string * string)) :
  forall (l2 l1 : list (string * string)) (seen : gmap string nat) out,
  parsed = l1 ++ l2 ->
  (forall t, seen !! t
             = if decide (ExpandTaxy.occurrences t parsed = 0%nat) then None
               else Some (ExpandTaxy.occurrences t l1)) ->
  exists seen',
    ExpandTaxy.expand_loop (ExpandTaxy.count_types parsed) (seen, out) l2
    = Some (seen',
            foldl (fun d cn => ExpandTaxy.dict_set d cn.1 cn.2) out
              (imap (fun j p =>
                       (ExpandTaxy.column_of parsed (length l1 + j) p.2, p.1))
                 l2)).
Proof.
  induction l2 as [|[name t] l2 IH]; intros l1 seen out Hparsed Hseen.
  - by eexists.
  - assert (ExpandTaxy.occurrences t parsed <> 0%nat) as Hocc.
    { rewrite Hparsed, occurrences_app, occurrences_cons. simpl.
      rewrite decide_True by done. lia. }
    simpl. rewrite Hseen, decide_False by done. simpl.
    rewrite lookup_insert_eq. simpl.
    rewrite count_types_lookup, decide_False by done. simpl.
    edestruct (IH (l1 ++ [(name, t)])) as [seen' Hrun].
    + by rewrite <- app_assoc.
    + intros t'. destruct (decide (t = t')) as [<-|Hne].
      * rewrite lookup_insert_eq, decide_False by done.
        rewrite occurrences_snoc. simpl. by rewrite decide_True by done.
      * rewrite lookup_insert_ne, Hseen by done.
        destruct (decide _); [done|].
        rewrite occurrences_snoc. simpl. rewrite decide_False by done.
        f_equal. lia.
    + exists seen'. rewrite Hrun. do 3 f_equal.
      * unfold ExpandTaxy.column_of. rewrite Nat.add_0_r.
        assert (take (length l1) parsed = l1) as ->
          by (rewrite Hparsed; apply take_app_length).
        by rewrite Nat.add_1_r.
      * apply imap_ext. intros j p _. simpl.
        rewrite length_app. simpl. do 2 f_equal. lia.
Qed.

(** X19. How [expand_lineage] names the columns: it never fails on a missing
    key, and it returns the dict obtained by setting, in the order of the
    lineage, for each taxon the column of its type; that column is the type
    itself when no other taxon of the lineage has this type, and otherwise
    the type followed by the rank (from 1) of the taxon among those of its
    type. A later taxon given the same column replaces the earlier one. *)
Theorem expand_lineage_columns
    (parse_lineage : string -> list (string * string)) (row_lineage : string) :
  ExpandTaxy.expand_lineage parse_lineage row_lineage
  = Some (foldl (fun d cn => ExpandTaxy.dict_set d cn.1 cn.2) []
            (ExpandTaxy.assignments (parse_lineage row_lineage))).
Proof.
  unfold ExpandTaxy.expand_lineage.
  set (parsed := parse_lineage row_lineage).
  destruct (expand_loop_spec parsed parsed []
              ((fun _ => 0%nat) <$> ExpandTaxy.count_types parsed) [])
    as [seen' Hrun]; [done| |].
  - intros t. rewrite lookup_fmap, count_types_lookup.
    by destruct (decide _).
  - by rewrite Hrun.
Qed.

(** ** Decimal numerals *)

Lemma pretty_N_char_digit x : ExpandTaxy.is_digit (pretty_N_char x) = true.
Proof. unfold pretty_N_char. by repeat case_match. Qed.

Lemma pretty_N_go_digits x :
  forall s, ExpandTaxy.all_digits s = true ->
            ExpandTaxy.all_digits (pretty_N_go x s) = true.
Proof.
  induction (N.lt_wf_0 x) as [x _ IH]. intros s Hs.
  assert (x = 0 \/ 0 < x)%N as [->|Hpos] by lia; [by rewrite pretty_N_go_0|].
  rewrite pretty_N_go_step by done. apply IH; [by apply N.div_lt|].
  simpl. by rewrite pretty_N_char_digit.
Qed.

Lemma pretty_N_go_length x :
  forall s, (String.length s <= String.length (pretty_N_go x s))%nat.
Proof.
  induction (N.lt_wf_0 x) as [x _ IH]. intros s.
  assert (x = 0 \/ 0 < x)%N as [->|Hpos] by lia; [by rewrite pretty_N_go_0|].
  rewrite pretty_N_go_step by done.
  etrans; [|apply IH; by apply N.div_lt]. simpl. lia.
Qed.

Lemma pretty_nat_digits (n : nat) : ExpandTaxy.all_digits (pretty n) = true.
Proof.
  unfold pretty, pretty_nat, pretty, pretty_N.
  destruct (decide _); [done|]. by apply pretty_N_go_digits.
Qed.

Lemma pretty_nat_nonempty (n : nat) : pretty n <> "".
Proof.
  unfold pretty, pretty_nat, pretty, pretty_N.
  destruct (decide _) as [|Hne]; [done|]. intros Heq.
  assert (0 < N.of_nat n)%N as Hpos by lia.
  rewrite pretty_N_go_step in Heq by done.
  pose proof (pretty_N_go_length (N.of_nat n `div` 10)
                (String (pretty_N_char (N.of_nat n `mod` 10)) "")) as Hlen.
  rewrite Heq in Hlen. simpl in Hlen. lia.
Qed.

Lemma ends_with_digit_tail c s :
  ExpandTaxy.ends_with_digit (String c s) = false ->
  ExpandTaxy.ends_with_digit s = false.
Proof. by destruct s. Qed.

Lemma all_digits_ends d :
  ExpandTaxy.all_digits d = true -> d <> "" ->
  ExpandTaxy.ends_with_digit d = true.
Proof.
  induction d as [|c d IH]; [done|]. simpl.
  intros [Hc Hd]%andb_true_iff _. destruct d as [|c' d]; [done|].
  by apply IH.
Qed.

Lemma ends_with_digit_app s d :
  d <> "" ->
  ExpandTaxy.ends_with_digit (s +:+ d) = ExpandTaxy.ends_with_digit d.
Proof.
  intros Hd. induction s as [|c s IH]; [done|].
  change (String c s +:+ d) with (String c (s +:+ d)).
  destruct (s +:+ d) as [|c' r] eqn:Hs.
  - destruct s; [by destruct d|done].
  - by rewrite <- IH.
Qed.

(** A name that does not end with a digit is determined by the name followed
    by a numeral. *)
Lemma numbered_name_inj s1 :
  forall s2 d1 d2,
  ExpandTaxy.ends_with_digit s1 = false ->
  ExpandTaxy.ends_with_digit s2 = false ->
  ExpandTaxy.all_digits d1 = true -> ExpandTaxy.all_digits d2 = true ->
  s1 +:+ d1 = s2 +:+ d2 -> s1 = s2.
Proof.
  assert (forall s d d', ExpandTaxy.ends_with_digit s = false ->
            ExpandTaxy.all_digits d = true -> d = s +:+ d' -> s = "") as Hnil.
  { intros s d d' Hs Hd ->. destruct s as [|c s]; [done|]. exfalso.
    assert (ExpandTaxy.all_digits (String c s) = true) as Hall.
    { clear Hs. revert Hd. generalize (String c s). intros r.
      induction r as [|c' r IH]; [done|]. simpl.
      intros [-> Hr]%andb_true_iff. by rewrite IH. }
    apply all_digits_ends in Hall; [congruence|done]. }
  induction s1 as [|c s1 IH]; intros s2 d1 d2 H1 H2 Hd1 Hd2 Heq.
  - symmetry. by eapply (Hnil s2 d1 d2).
  - destruct s2 as [|c' s2].
    + by eapply (Hnil (String c s1) d2 d1).
    + injection Heq as -> Heq. f_equal.
      apply (IH s2 d1 d2); eauto using ends_with_digit_tail.
Qed.

(** ** Columns of a lineage *)

Lemma dict_set_fresh d c n :
  c ∉ d.*1 -> ExpandTaxy.dict_set d c n = d ++ [(c, n)].
Proof.
  induction d as [|[c' v] d IH]; [done|]. simpl.
  intros [Hne Hd]%not_elem_of_cons.
  rewrite decide_False by done. by rewrite IH.
Qed.

Lemma foldl_dict_set_fresh (l : list (string * string)) :
  forall d, NoDup (d.*1 ++ l.*1) ->
  foldl (fun d cn => ExpandTaxy.dict_set d cn.1 cn.2) d l = d ++ l.
Proof.
  induction l as [|[c n] l IH]; intros d Hnd; [by rewrite app_nil_r|].
  simpl. rewrite dict_set_fresh.
  - rewrite IH; [by rewrite <- app_assoc|].
    by rewrite fmap_app, <- app_assoc.
  - apply NoDup_app in Hnd as (_ & Hnd & _). intros Hin.
    apply (Hnd c Hin). simpl. left.
Qed.

Lemma occurrences_take_S t (l : list (string * string)) i p :
  l !! i = Some p ->
  ExpandTaxy.occurrences t (take (S i) l)
  = (ExpandTaxy.occurrences t (take i l)
     + (if decide (p.2 = t) then 1 else 0))%nat.
Proof. intros Hp. by rewrite (take_S_r _ _ _ Hp), occurrences_snoc. Qed.

Lemma occurrences_take_le t (l : list (string * string)) i :
  (ExpandTaxy.occurrences t (take i l) <= ExpandTaxy.occurrences t l)%nat.
Proof. rewrite <- (take_drop i l) at 2. rewrite occurrences_app. lia. Qed.

Lemma occurrences_take_mono t (l : list (string * string)) i j :
  (i <= j)%nat ->
  (ExpandTaxy.occurrences t (take i l)
   <= ExpandTaxy.occurrences t (take j l))%nat.
Proof.
  intros Hij. replace (take i l) with (take i (take j l)).
  - apply occurrences_take_le.
  - rewrite take_take. f_equal. lia.
Qed.

(** Two taxa of the same type: the type occurs more than once, and the later
    taxon has the larger rank. *)
Lemma occurrences_take_lt t (l : list (string * string)) i j pi pj :
  l !! i = Some pi -> l !! j = Some pj -> pi.2 = t -> pj.2 = t -> (i < j)%nat ->
  (ExpandTaxy.occurrences t (take i l)
   < ExpandTaxy.occurrences t (take j l))%nat /\
  (1 < ExpandTaxy.occurrences t l)%nat.
Proof.
  intros Hi Hj Hti Htj Hij.
  pose proof (occurrences_take_S t l i pi Hi) as Hsi.
  pose proof (occurrences_take_S t l j pj Hj) as Hsj.
  rewrite decide_True in Hsi by done. rewrite decide_True in Hsj by done.
  pose proof (occurrences_take_mono t l (S i) j ltac:(lia)).
  pose proof (occurrences_take_le t l (S j)). lia.
Qed.

Lemma column_of_type parsed parsed' i j t t' :
  ExpandTaxy.ends_with_digit t = false ->
  ExpandTaxy.ends_with_digit t' = false ->
  ExpandTaxy.column_of parsed i t = ExpandTaxy.column_of parsed' j t' ->
  t = t'.
Proof.
  intros Ht Ht'. unfold ExpandTaxy.column_of.
  destruct (decide _), (decide _); intros Heq; [| | |done].
  - eapply numbered_name_inj; eauto using pretty_nat_digits.
  - rewrite <- Heq, ends_with_digit_app, all_digits_ends in Ht'
      by auto using pretty_nat_digits, pretty_nat_nonempty.
    done.
  - rewrite Heq, ends_with_digit_app, all_digits_ends in Ht
      by auto using pretty_nat_digits, pretty_nat_nonempty.
    done.
Qed.

Lemma assignments_columns_NoDup (parsed : list (string * string)) :
  Forall (fun p => ExpandTaxy.ends_with_digit p.2 = false) parsed ->
  NoDup (ExpandTaxy.assignments parsed).*1.
Proof.
  intros Hty. apply NoDup_alt. intros i j c.
  unfold ExpandTaxy.assignments.
  rewrite !list_lookup_fmap, !list_lookup_imap.
  destruct (parsed !! i) as [pi|] eqn:Hi; [|done].
  destruct (parsed !! j) as [pj|] eqn:Hj; [|done]. simpl.
  intros [= <-] [= Heq].
  rewrite Forall_lookup in Hty.
  assert (pj.2 = pi.2) as Ht by eauto using column_of_type.
  rewrite Ht in Heq.
  assert (forall a b pa pb, parsed !! a = Some pa -> parsed !! b = Some pb ->
            pa.2 = pi.2 -> pb.2 = pi.2 -> (a < b)%nat ->
            ExpandTaxy.column_of parsed a pi.2
            <> ExpandTaxy.column_of parsed b pi.2) as Hlt.
  { intros a b pa pb Ha Hb Hta Htb Hab.
    destruct (occurrences_take_lt pi.2 parsed a b pa pb Ha Hb Hta Htb Hab)
      as [Hrank Hmany].
    unfold ExpandTaxy.column_of. rewrite !decide_True by done.
    intros Hc. apply (inj (String.app _)), (inj pretty) in Hc. lia. }
  destruct (Nat.lt_trichotomy i j) as [Hij|[->|Hji]]; [|done|].
  - destruct (Hlt i j pi pj Hi Hj eq_refl Ht Hij). done.
  - destruct (Hlt j i pj pi Hj Hi Ht eq_refl Hji). done.
Qed.

(** X20. No taxon is lost when no type of the lineage ends with a digit: the
    columns given to the taxa are pairwise distinct, and [expand_lineage]
    returns one entry per taxon, in the order of the lineage, each under the
    column of its type. *)
Theorem expand_lineage_keeps_every_taxon
    (parse_lineage : string -> list (string * string)) (row_lineage : string) :
  Forall (fun p => ExpandTaxy.ends_with_digit p.2 = false)
    (parse_lineage row_lineage) ->
  NoDup (ExpandTaxy.assignments (parse_lineage row_lineage)).*1 /\
  ExpandTaxy.expand_lineage parse_lineage row_lineage
  = Some (ExpandTaxy.assignments (parse_lineage row_lineage)).
Proof.
  intros Hty. pose proof (assignments_columns_NoDup _ Hty) as Hnd.
  split; [done|].
  unfold ExpandTaxy.expand_lineage.
  set (parsed := parse_lineage row_lineage) in *.
  destruct (expand_loop_spec parsed parsed []
              ((fun _ => 0%nat) <$> ExpandTaxy.count_types parsed) [])
    as [seen' Hrun]; [done| |].
  - intros t. rewrite lookup_fmap, count_types_lookup.
    by destruct (decide _).
  - rewrite Hrun. simpl. f_equal.
    by apply (foldl_dict_set_fresh (ExpandTaxy.assignments parsed) []).
Qed.

Lemma expand_lineage_keeps_every_taxon_witness :
  Forall (fun p => ExpandTaxy.ends_with_digit p.2 = false)
    ((fun _ : string => two_clades) "") /\
  NoDup (ExpandTaxy.assignments two_clades).*1 /\
  ExpandTaxy.expand_lineage (fun _ => two_clades) ""
  = Some (ExpandTaxy.assignments two_clades).
Proof.
  assert (Forall (fun p => ExpandTaxy.ends_with_digit p.2 = false)
            ((fun _ : string => two_clades) "")) as H1
    by (repeat constructor).
  split; [exact H1|].
  exact (expand_lineage_keeps_every_taxon (fun _ => two_clades) "" H1).
Defined.

(** Without the condition on the types a taxon can be lost: the third taxon
    of [clashing_types], of type [clade1], takes the column of the first
    clade. *)
Example expand_lineage_overwrites :
  ExpandTaxy.assignments clashing_types
  = [("clade1", "X"); ("clade2", "Y"); ("clade1", "Z")] /\
  ExpandTaxy.expand_lineage (fun _ => clashing_types) ""
  = Some [("clade1", "Z"); ("clade2", "Y")].
Proof. split; by vm_compute. Qed.
